(** * VLIW dynamic binary translator: translation-block engine

    Shallow embedding of [src/new1.cpp] (class [VLIWSimulator]) and the
    properties of its translation-block builder, its deferred-store packet
    reorderer and its software-pipelined-loop phase machines.

    Conventions of the embedding.
    - C++ [int] values are mathematical integers ([Z]); signed overflow is
      undefined in the source and is not modelled.
    - [std::vector] is [list]; [push_back] appends at the end.
    - The simulator object is a record threaded through every member
      function (explicit state passing).
    - The text written to [cout] is not modelled, except that the lines
      announcing a generated block, an executed block and an outer
      iteration are kept as structured events in [trace]: the source
      "dispatches" a block only by printing such a line.
    - The [registers] map of the class is written by the constructor and
      read by no member function; it is left out. *)

From Stdlib Require Import ZArith List String Bool Lia.
From Stdlib Require Import Sorted.
Import ListNotations.
Open Scope string_scope.
Open Scope list_scope.
Open Scope Z_scope.

(** ** Data model *)

Inductive InsnType : Type :=
  | BRANCH | STORE | LOAD | ARITHMETIC | NOP | SPLOOP | SPKERNEL | SPMASK | OTHER.

Definition InsnType_eqb (a b : InsnType) : bool :=
  match a, b with
  | BRANCH, BRANCH | STORE, STORE | LOAD, LOAD | ARITHMETIC, ARITHMETIC
  | NOP, NOP | SPLOOP, SPLOOP | SPKERNEL, SPKERNEL | SPMASK, SPMASK
  | OTHER, OTHER => true
  | _, _ => false
  end.

(** [struct Instruction]; the members [type] and [unit] are prefixed because
    the bare names are taken. *)
Record Instruction : Type := mkInstruction {
  insn_type   : InsnType;
  mnemonic    : string;
  insn_unit   : string;
  delay_slots : Z;
  predicate   : string;
  operands    : string;
  line_num    : Z;
  parallel    : bool
}.

Record ExecutePacket : Type := mkExecutePacket {
  instructions : list Instruction;
  cycles       : Z;
  ep_num       : Z
}.

(** [struct TranslationBlock].  The three integer members [max_cycles],
    [start_ep_index] and [end_ep_index] are assigned by
    [translateWithConstraint] only; the phase translators leave them
    unassigned, which is recorded as [None]. *)
Record TranslationBlock : Type := mkTranslationBlock {
  packets        : list ExecutePacket;
  tb_id          : Z;
  max_cycles     : option Z;
  start_label    : string;
  start_ep_index : option Z;
  end_ep_index   : option Z
}.

Record SavedContext : Type := mkSavedContext {
  remaining_delay  : Z;
  target_address   : string;
  instruction_line : Z
}.

Record DeferredStore : Type := mkDeferredStore {
  ds_operands : string;
  ds_unit     : string;
  ds_line_num : Z
}.

(** Lines of the diagnostic output that stand for an action. *)
Inductive Event : Type :=
  | Generated (id : Z)        (* "Generated TB<id> for state ..." *)
  | Executing (id : Z)        (* "... Executing TB<id>" / "Re-executing TB<id>" *)
  | OuterIteration (n : Z).   (* "OUTER ITERATION <n>" *)

Definition Event_eqb (a b : Event) : bool :=
  match a, b with
  | Generated x, Generated y => x =? y
  | Executing x, Executing y => x =? y
  | OuterIteration x, OuterIteration y => x =? y
  | _, _ => false
  end.

Record VLIWSimulator : Type := mkSim {
  guest_code         : list ExecutePacket;
  translation_blocks : list TranslationBlock;
  saved_contexts     : list SavedContext;
  current_tb_id      : Z;
  ILC                : Z;
  RILC               : Z;
  state              : Z;
  A1                 : Z;
  sploop_start_index : Z;
  deferred_stores    : list DeferredStore;
  trace              : list Event
}.

(** The constructor's member initialisers. *)
Definition new_simulator : VLIWSimulator :=
  mkSim [] [] [] 0 0 0 0 0 (-1) [] [].

(** Member updates. *)
Definition set_guest_code (v : list ExecutePacket) (s : VLIWSimulator) :=
  mkSim v (translation_blocks s) (saved_contexts s) (current_tb_id s) (ILC s)
        (RILC s) (state s) (A1 s) (sploop_start_index s) (deferred_stores s)
        (trace s).
Definition set_translation_blocks (v : list TranslationBlock) (s : VLIWSimulator) :=
  mkSim (guest_code s) v (saved_contexts s) (current_tb_id s) (ILC s)
        (RILC s) (state s) (A1 s) (sploop_start_index s) (deferred_stores s)
        (trace s).
Definition set_saved_contexts (v : list SavedContext) (s : VLIWSimulator) :=
  mkSim (guest_code s) (translation_blocks s) v (current_tb_id s) (ILC s)
        (RILC s) (state s) (A1 s) (sploop_start_index s) (deferred_stores s)
        (trace s).
Definition set_current_tb_id (v : Z) (s : VLIWSimulator) :=
  mkSim (guest_code s) (translation_blocks s) (saved_contexts s) v (ILC s)
        (RILC s) (state s) (A1 s) (sploop_start_index s) (deferred_stores s)
        (trace s).
Definition set_ILC (v : Z) (s : VLIWSimulator) :=
  mkSim (guest_code s) (translation_blocks s) (saved_contexts s)
        (current_tb_id s) v (RILC s) (state s) (A1 s) (sploop_start_index s)
        (deferred_stores s) (trace s).
Definition set_RILC (v : Z) (s : VLIWSimulator) :=
  mkSim (guest_code s) (translation_blocks s) (saved_contexts s)
        (current_tb_id s) (ILC s) v (state s) (A1 s) (sploop_start_index s)
        (deferred_stores s) (trace s).
Definition set_state (v : Z) (s : VLIWSimulator) :=
  mkSim (guest_code s) (translation_blocks s) (saved_contexts s)
        (current_tb_id s) (ILC s) (RILC s) v (A1 s) (sploop_start_index s)
        (deferred_stores s) (trace s).
Definition set_A1 (v : Z) (s : VLIWSimulator) :=
  mkSim (guest_code s) (translation_blocks s) (saved_contexts s)
        (current_tb_id s) (ILC s) (RILC s) (state s) v (sploop_start_index s)
        (deferred_stores s) (trace s).
Definition set_sploop_start_index (v : Z) (s : VLIWSimulator) :=
  mkSim (guest_code s) (translation_blocks s) (saved_contexts s)
        (current_tb_id s) (ILC s) (RILC s) (state s) (A1 s) v
        (deferred_stores s) (trace s).
Definition set_deferred_stores (v : list DeferredStore) (s : VLIWSimulator) :=
  mkSim (guest_code s) (translation_blocks s) (saved_contexts s)
        (current_tb_id s) (ILC s) (RILC s) (state s) (A1 s)
        (sploop_start_index s) v (trace s).
Definition log (es : list Event) (s : VLIWSimulator) :=
  mkSim (guest_code s) (translation_blocks s) (saved_contexts s)
        (current_tb_id s) (ILC s) (RILC s) (state s) (A1 s)
        (sploop_start_index s) (deferred_stores s) (trace s ++ es).

(** [translation_blocks.push_back(tb)] *)
Definition push_tb (tb : TranslationBlock) (s : VLIWSimulator) :=
  set_translation_blocks (translation_blocks s ++ [tb]) s.

(** ** Building the guest code *)

Definition createInstruction (type : InsnType) (mn un : string) (delay : Z)
    (ops : string) (line : Z) (pred : string) (par : bool) : Instruction :=
  mkInstruction type mn un delay pred ops line par.

(** [addEP(ep_num, cycles, insns)]; the single-instruction overload is the
    case of a one-element list. *)
Definition addEP (n c : Z) (insns : list Instruction) (s : VLIWSimulator) :=
  set_guest_code (guest_code s ++ [mkExecutePacket insns c n]) s.

Definition addEP1 (n c : Z) (insn : Instruction) (s : VLIWSimulator) :=
  addEP n c [insn] s.

(** [for (int i = lo; i <= hi; i++) addEP(i, 1, f i)] *)
Fixpoint addEP_range (f : Z -> Instruction) (lo : Z) (count : nat)
    (s : VLIWSimulator) : VLIWSimulator :=
  match count with
  | O => s
  | S k => addEP_range f (lo + 1) k (addEP1 lo 1 (f lo) s)
  end.

Definition parseGuestCode (s : VLIWSimulator) : VLIWSimulator :=
  let s := addEP_range
             (fun i => createInstruction BRANCH "B" ".S2" 5 "LOOP" i "" false)
             1 5 s in
  let s := addEP 6 1
             [ createInstruction ARITHMETIC "SUB" ".D2" 0 "B1, 0x1, B1" 6 "[B1]" false;
               createInstruction BRANCH "B" ".S1" 5 "LOOP" 7 "[B1]" true ] s in
  let s := addEP1 7 1 (createInstruction BRANCH "B" ".S2" 5 "B3" 8 "" false) s in
  let s := addEP_range
             (fun i => createInstruction NOP "NOP" "" 0 "" (9 + (i - 8)) "" false)
             8 4 s in
  let s := addEP1 12 1 (createInstruction ARITHMETIC "MV" ".L1" 0 "A10, A2" 12 "" false) s in
  addEP1 13 1 (createInstruction ARITHMETIC "ADD" ".L1" 0 "A4, A2, A4" 13 "" false) s.

Definition parseSoftwarePipelinedLoop (s : VLIWSimulator) : VLIWSimulator :=
  let s := set_sploop_start_index (-1) (set_guest_code [] s) in
  let s := addEP1 1 1 (createInstruction ARITHMETIC "MVK" ".S" 0 "8, A0" 1 "" false) s in
  let s := addEP1 2 1 (createInstruction ARITHMETIC "MVC" ".S" 0 "A0, ILC" 2 "" false) s in
  let s := addEP1 3 3 (createInstruction NOP "NOP" "" 0 "3" 3 "" false) s in
  let s := addEP1 4 1 (createInstruction SPLOOP "SPLOOP" "" 0 "1" 4 "" false) s in
  let s := set_sploop_start_index 4 s in
  let s := addEP1 5 1 (createInstruction LOAD "LDW" ".D" 4 "*A1++, A2" 5 "" false) s in
  let s := addEP1 6 4 (createInstruction NOP "NOP" "" 0 "4" 6 "" false) s in
  let s := addEP1 7 1 (createInstruction ARITHMETIC "MV" ".L1X" 0 "A2, B2" 7 "" false) s in
  addEP 8 1
    [ createInstruction SPKERNEL "SPKERNEL" "" 0 "6, 0" 8 "" false;
      createInstruction STORE "STW" ".D" 0 "B2, *B0++" 9 "" true ] s.

Definition parseNestedSoftwarePipelinedLoop (s : VLIWSimulator) : VLIWSimulator :=
  let s := set_sploop_start_index (-1) (set_guest_code [] s) in
  let s := addEP1 1 1 (createInstruction ARITHMETIC "MVK" ".S" 0 "7, A8" 1 "" false) s in
  let s := addEP1 2 1 (createInstruction ARITHMETIC "MVC" ".S" 0 "A8, ILC" 2 "" false) s in
  let s := addEP1 3 1 (createInstruction ARITHMETIC "MVC" ".S" 0 "A8, RILC" 3 "" false) s in
  let s := addEP1 4 1 (createInstruction ARITHMETIC "MVK" ".S" 0 "1, A1" 4 "" false) s in
  let s := addEP1 5 3 (createInstruction NOP "NOP" "" 0 "3" 5 "" false) s in
  let s := addEP1 6 1 (createInstruction SPLOOP "SPLOOP" "" 0 "1" 6 "[A1]" false) s in
  let s := set_sploop_start_index 6 s in
  let s := addEP1 7 1 (createInstruction LOAD "LDW" ".D1" 0 "*A4++, A0" 7 "" false) s in
  let s := addEP1 8 4 (createInstruction NOP "NOP" "" 0 "4" 8 "" false) s in
  let s := addEP1 9 1 (createInstruction ARITHMETIC "MV" ".L2X" 0 "A0, B0" 9 "" false) s in
  let s := addEP 10 1
             [ createInstruction SPKERNEL "SPKERNELR" "" 0 "" 10 "" false;
               createInstruction STORE "STW" ".D2" 0 "B0, *B4++" 11 "" true ] s in
  let s := addEP1 11 1 (createInstruction BRANCH "BR" ".S2" 5 "TARGET" 12 "" false) s in
  let s := addEP 12 1
             [ createInstruction SPMASK "SPMASK" ".D" 0 "" 13 "" false;
               createInstruction BRANCH "B" "" 0 "BR TARGET" 14 "[A1]" true;
               createInstruction ARITHMETIC "SUB" ".S1" 0 "A1, 1, A1" 15 "[A1]" true;
               createInstruction LOAD "LDW" ".D1" 0 "*A6, A0" 16 "[A1]" true;
               createInstruction ARITHMETIC "ADD" ".L1" 0 "A6, 4, A4" 17 "[A1]" true ] s in
  let s := addEP1 13 4 (createInstruction NOP "NOP" "" 0 "4" 18 "" false) s in
  let s := addEP1 14 1 (createInstruction ARITHMETIC "OR" ".S2" 0 "B6, 0, B4" 19 "" false) s in
  addEP1 15 1 (createInstruction NOP "NOP" "" 0 "" 20 "" false) s.

(** ** TB builder: [translateWithConstraint] *)

(** The sentinel of the per-packet scan, the value returned by the budget
    query on an empty tracker, and the driver's first budget are the same
    literal in the source. *)
Definition unconstrained : Z := 1000.

(** First [for] loop over the packet: smallest delay among its branches,
    starting from the sentinel. *)
Definition min_delay_step (m : Z) (insn : Instruction) : Z :=
  if InsnType_eqb (insn_type insn) BRANCH && (delay_slots insn <? m)
  then delay_slots insn else m.

Definition min_current_branch_delay (ep : ExecutePacket) : Z :=
  fold_left min_delay_step (instructions ep) unconstrained.

(** Second [for] loop over the packet: one [SavedContext] per branch. *)
Definition save_context_step (ctxs : list SavedContext) (insn : Instruction)
    : list SavedContext :=
  if InsnType_eqb (insn_type insn) BRANCH
  then ctxs ++ [mkSavedContext (delay_slots insn) (operands insn) (line_num insn)]
  else ctxs.

Definition save_branch_contexts (ep : ExecutePacket) (ctxs : list SavedContext)
    : list SavedContext :=
  fold_left save_context_step (instructions ep) ctxs.

(** Local variables of the [while] loop. *)
Record BuildState : Type := mkBuildState {
  b_packets  : list ExecutePacket;   (* tb.packets *)
  b_contexts : list SavedContext;    (* saved_contexts *)
  b_cycles   : Z;                    (* cycles *)
  b_ep_index : Z                     (* ep_index *)
}.

(** [ep_index < guest_code.size() && cycles > 0].  The comparison converts
    the [int] index to [size_t], so a negative index compares above every
    size. *)
Definition loop_guard (gc : list ExecutePacket) (s : BuildState) : bool :=
  (0 <=? b_ep_index s) && (b_ep_index s <? Z.of_nat (List.length gc))
  && (0 <? b_cycles s).

(** The remaining budget after a packet: subtract its cost, then clamp to
    the packet's smallest branch delay when that is below the sentinel and
    below what is left.  The subtraction is exact.  In the source it
    subtracts two [int]s; [cycles] is positive whenever the body runs, so an
    overflow, which is undefined there, needs a negative packet cost. *)
Definition next_cycles (c : Z) (ep : ExecutePacket) : Z :=
  let m := min_current_branch_delay ep in
  let c' := c - cycles ep in
  if (m <? unconstrained) && (m <? c') then m else c'.

(** One pass through the loop body, up to the final [if (cycles <= 0)]. *)
Definition loop_body (gc : list ExecutePacket) (s : BuildState) : BuildState :=
  match nth_error gc (Z.to_nat (b_ep_index s)) with
  | None => s
  | Some ep =>
      mkBuildState (b_packets s ++ [ep])
                   (save_branch_contexts ep (b_contexts s))
                   (next_cycles (b_cycles s) ep)
                   (b_ep_index s + 1)
  end.

(** The [while] loop; [fuel] bounds the number of passes. *)
Fixpoint while_loop (fuel : nat) (gc : list ExecutePacket) (s : BuildState)
    : BuildState :=
  match fuel with
  | O => s
  | S f =>
      if loop_guard gc s then
        let s' := loop_body gc s in
        if b_cycles s' <=? 0 then s' else while_loop f gc s'
      else s
  end.

Definition build_init (sim : VLIWSimulator) (start_ep initial_cycles : Z)
    : BuildState :=
  mkBuildState [] (saved_contexts sim) initial_cycles start_ep.

(** Every pass advances [ep_index], so [length guest_code] passes suffice
    (lemma [while_loop_fuel_enough]). *)
Definition build_loop (sim : VLIWSimulator) (start_ep initial_cycles : Z)
    : BuildState :=
  while_loop (List.length (guest_code sim)) (guest_code sim)
             (build_init sim start_ep initial_cycles).

Definition translateWithConstraint (start_ep initial_cycles : Z)
    (sim : VLIWSimulator) : TranslationBlock * VLIWSimulator :=
  let b := build_loop sim start_ep initial_cycles in
  (mkTranslationBlock (b_packets b) (current_tb_id sim) (Some initial_cycles)
                      "" (Some start_ep) (Some (b_ep_index b - 1)),
   set_saved_contexts (b_contexts b)
     (set_current_tb_id (current_tb_id sim + 1) sim)).

(** ** Branch-delay tracker query: [getCyclesFromPrecedingTB] *)

Definition min_remaining_delay (ctxs : list SavedContext) (m0 : Z) : Z :=
  fold_left (fun m ctx => if remaining_delay ctx <? m then remaining_delay ctx else m)
            ctxs m0.

(** [erase(remove_if(..., remaining_delay <= 0), end)] keeps, in order, the
    entries for which the predicate is false. *)
Definition drop_expired (ctxs : list SavedContext) : list SavedContext :=
  filter (fun ctx => negb (remaining_delay ctx <=? 0)) ctxs.

Definition getCyclesFromPrecedingTB (sim : VLIWSimulator) : Z * VLIWSimulator :=
  match saved_contexts sim with
  | [] => (unconstrained, sim)
  | c0 :: _ =>
      (min_remaining_delay (saved_contexts sim) (remaining_delay c0),
       set_saved_contexts (drop_expired (saved_contexts sim)) sim)
  end.

(** [getNextStartEP]: one past the end index of the last block.  [None]
    stands for the read of an unassigned [end_ep_index]. *)
Definition getNextStartEP (sim : VLIWSimulator) : option Z :=
  match rev (translation_blocks sim) with
  | [] => Some 0
  | last_tb :: _ =>
      match end_ep_index last_tb with
      | Some e => Some (e + 1)
      | None => None
      end
  end.

(** ** Packet reorderer: [translateEPWithDeferredStores] *)

(** The rebuilt store instruction is a default-initialised local whose
    members [delay_slots] and [parallel] are never assigned.  Their values
    are not determined by the program; the embedding takes them from an
    oracle indexed by the position of the store among the deferred ones. *)
Definition Indeterminate : Type := nat -> Z * bool.

(** First loop: stores go to [deferred_stores], everything else is copied
    to [translated_insns]. *)
Definition defer_step (acc : list DeferredStore * list Instruction)
    (insn : Instruction) : list DeferredStore * list Instruction :=
  if InsnType_eqb (insn_type insn) STORE
  then (fst acc ++ [mkDeferredStore (operands insn) (insn_unit insn) (line_num insn)],
        snd acc)
  else (fst acc, snd acc ++ [insn]).

(** Second loop: each deferred store is rebuilt and appended.  [predicate]
    is a default-constructed (empty) string. *)
Definition rebuild_store (u : Indeterminate) (k : nat) (ds : DeferredStore)
    : Instruction :=
  mkInstruction STORE "STW" (ds_unit ds) (fst (u k)) "" (ds_operands ds)
                (ds_line_num ds) (snd (u k)).

Definition emit_step (u : Indeterminate) (acc : nat * list Instruction)
    (ds : DeferredStore) : nat * list Instruction :=
  (S (fst acc), snd acc ++ [rebuild_store u (fst acc) ds]).

Definition translateEPWithDeferredStores (u : Indeterminate)
    (ep : ExecutePacket) (sim : VLIWSimulator) : ExecutePacket * VLIWSimulator :=
  let '(dss, translated) := fold_left defer_step (instructions ep) ([], []) in
  let '(_, translated) := fold_left (emit_step u) dss (O, translated) in
  (mkExecutePacket translated (cycles ep) (ep_num ep),
   set_deferred_stores dss sim).

(** The packet a call leaves in its reference argument. *)
Definition reorder (u : Indeterminate) (ep : ExecutePacket) : ExecutePacket :=
  fst (translateEPWithDeferredStores u ep new_simulator).

(** ** Phase translators *)

(** [tb.tb_id = current_tb_id++] followed by the label assignment; the
    packets are filled in by the caller's loop. *)
Definition labelled_tb (label : string) (ps : list ExecutePacket)
    (sim : VLIWSimulator) : TranslationBlock * VLIWSimulator :=
  (mkTranslationBlock ps (current_tb_id sim) None label None None,
   set_current_tb_id (current_tb_id sim + 1) sim).

Definition push_packet (acc : list ExecutePacket) (ep : ExecutePacket) :=
  acc ++ [ep].

(** [for (size_t i = 0; i < guest_code.size(); i++) push_back(guest_code[i])] *)
Definition translateNormalLoop (sim : VLIWSimulator) :=
  labelled_tb "LOOP_STATE_0" (fold_left push_packet (guest_code sim) []) sim.

(** The kernel loop of the single-level machine: packets whose index is
    below a non-negative [sploop_start_index] are skipped. *)
Fixpoint kernel_loop (sploop i : Z) (rest acc : list ExecutePacket)
    : list ExecutePacket :=
  match rest with
  | [] => acc
  | ep :: rest' =>
      if (0 <=? sploop) && (i <? sploop)
      then kernel_loop sploop (i + 1) rest' acc
      else kernel_loop sploop (i + 1) rest' (acc ++ [ep])
  end.

Definition translateKernelLoop (sim : VLIWSimulator) :=
  labelled_tb "LOOP_STATE_1"
    (kernel_loop (sploop_start_index sim) 0 (guest_code sim) []) sim.

(** [for (int i = 0; i < sploop_start_index; i++) if (i < size) push] *)
Fixpoint prolog_loop (gc : list ExecutePacket) (i count : nat)
    (acc : list ExecutePacket) : list ExecutePacket :=
  match count with
  | O => acc
  | S c =>
      match nth_error gc i with
      | Some ep => prolog_loop gc (S i) c (acc ++ [ep])
      | None => prolog_loop gc (S i) c acc
      end
  end.

Definition translateNestedProlog (sim : VLIWSimulator) :=
  labelled_tb "NESTED_STATE_0"
    (prolog_loop (guest_code sim) O (Z.to_nat (sploop_start_index sim)) []) sim.

(** The two flags computed by the inner [for] of [translateNestedInner]. *)
Definition flags_step (fl : bool * bool) (insn : Instruction) : bool * bool :=
  (if InsnType_eqb (insn_type insn) SPMASK then true else fst fl,
   if InsnType_eqb (insn_type insn) BRANCH then true else snd fl).

Definition has_spmask (ep : ExecutePacket) : bool :=
  fst (fold_left flags_step (instructions ep) (false, false)).

Definition has_branch (ep : ExecutePacket) : bool :=
  snd (fold_left flags_step (instructions ep) (false, false)).

(** The outer [for] of [translateNestedInner] over the packets from the
    start index on: [break] at a branch, [continue] at an SPMASK. *)
Fixpoint inner_loop (rest acc : list ExecutePacket) : list ExecutePacket :=
  match rest with
  | [] => acc
  | ep :: rest' =>
      if has_branch ep then acc
      else if has_spmask ep then inner_loop rest' acc
      else inner_loop rest' (acc ++ [ep])
  end.

(** [size_t i = sploop_start_index]: a negative index converts to a value
    above every size, and the loop does not run. *)
Definition translateNestedInner (sim : VLIWSimulator) :=
  labelled_tb "NESTED_STATE_1"
    (if sploop_start_index sim <? 0 then []
     else inner_loop (skipn (Z.to_nat (sploop_start_index sim)) (guest_code sim)) [])
    sim.

(** [for (size_t i = 10; i < guest_code.size(); i++) push] *)
Definition translateNestedOverlap (sim : VLIWSimulator) :=
  labelled_tb "NESTED_STATE_2"
    (fold_left push_packet (skipn 10 (guest_code sim)) []) sim.

(** ** Phase machines *)

(** The lookup loops of [translateNestedLoop]: id of the first block with
    the given label, or [-1]. *)
Definition find_tb_id (label : string) (tbs : list TranslationBlock) : Z :=
  match find (fun tb => String.eqb (start_label tb) label) tbs with
  | Some tb => tb_id tb
  | None => -1
  end.

(** [for (int i = 1; i <= n; i++)] printing one execution line per pass. *)
Definition execute_times (id n : Z) : list Event :=
  repeat (Executing id) (Z.to_nat n).

Definition translateSoftwarePipelinedLoop (sim : VLIWSimulator) : VLIWSimulator :=
  if state sim =? 0 then
    let '(tb, sim) := translateNormalLoop sim in
    let sim := push_tb tb sim in
    let sim := log [Generated (tb_id tb); Executing (tb_id tb)] sim in
    let sim := set_ILC (ILC sim - 1) sim in
    if 0 <? ILC sim then
      let sim := set_state 1 sim in
      let '(tb1, sim) := translateKernelLoop sim in
      let sim := push_tb tb1 sim in
      let sim := log (Generated (tb_id tb1) :: execute_times (tb_id tb1) (ILC sim)) sim in
      let sim := set_ILC 0 sim in
      set_state 0 sim
    else set_state 0 sim
  else sim.

(** The common tail of every path of [translateNestedLoop]:
    [ILC = RILC; A1--; state = (A1 > 0) ? 2 : 0]. *)
Definition reload_and_advance (sim : VLIWSimulator) : VLIWSimulator :=
  let sim := set_ILC (RILC sim) sim in
  let sim := set_A1 (A1 sim - 1) sim in
  if 0 <? A1 sim then set_state 2 sim else set_state 0 sim.

Definition translateNestedLoop (sim : VLIWSimulator) : VLIWSimulator :=
  if state sim =? 0 then
    let '(tb0, sim) := translateNestedProlog sim in
    let sim := push_tb tb0 sim in
    let sim := log [Generated (tb_id tb0); Executing (tb_id tb0)] sim in
    let sim := set_ILC (ILC sim - 1) sim in
    if 0 <? ILC sim then
      let sim := set_state 1 sim in
      let '(tb1, sim) := translateNestedInner sim in
      let sim := push_tb tb1 sim in
      let sim := log (Generated (tb_id tb1) :: execute_times (tb_id tb1) (ILC sim)) sim in
      let sim := set_ILC 0 sim in
      reload_and_advance sim
    else reload_and_advance sim
  else if state sim =? 2 then
    let state2_tb_id := find_tb_id "NESTED_STATE_2" (translation_blocks sim) in
    let '(state2_tb_id, sim) :=
      if state2_tb_id =? -1 then
        let '(tb2, sim) := translateNestedOverlap sim in
        let sim := push_tb tb2 sim in
        (tb_id tb2, log [Generated (tb_id tb2)] sim)
      else (state2_tb_id, sim) in
    let sim := log [Executing state2_tb_id] sim in
    let state0_tb_id := find_tb_id "NESTED_STATE_0" (translation_blocks sim) in
    let sim := if state0_tb_id =? -1 then sim else log [Executing state0_tb_id] sim in
    let sim := set_ILC (ILC sim - 1) sim in
    if 0 <? ILC sim then
      let state1_tb_id := find_tb_id "NESTED_STATE_1" (translation_blocks sim) in
      let sim := if state1_tb_id =? -1 then sim
                 else log (execute_times state1_tb_id (ILC sim)) sim in
      let sim := set_ILC 0 sim in
      reload_and_advance sim
    else reload_and_advance sim
  else sim.

(** ** Driver: [simulateExecution] *)

Definition initial_cycles : Z := unconstrained.

(** [next_ep_index < guest_code.size()], with the conversion to [size_t]. *)
Definition index_in_range (i : Z) (gc : list ExecutePacket) : bool :=
  (0 <=? i) && (i <? Z.of_nat (List.length gc)).

(** Part 1: three blocks over the straight-line stream. *)
Definition simulate_part1 (sim : VLIWSimulator) : option VLIWSimulator :=
  let sim := parseGuestCode sim in
  match getNextStartEP sim with
  | None => None
  | Some start_ep_tb1 =>
    let '(tb1, sim) := translateWithConstraint start_ep_tb1 initial_cycles sim in
    let sim := push_tb tb1 sim in
    let '(cycles_for_tb2, sim) := getCyclesFromPrecedingTB sim in
    match getNextStartEP sim with
    | None => None
    | Some start_ep_tb2 =>
      let '(tb2, sim) := translateWithConstraint start_ep_tb2 cycles_for_tb2 sim in
      let sim := push_tb tb2 sim in
      let '(cycles_for_tb3, sim) := getCyclesFromPrecedingTB sim in
      match getNextStartEP sim with
      | None => None
      | Some next_ep_index =>
        if index_in_range next_ep_index (guest_code sim) then
          let '(tb3, sim) := translateWithConstraint next_ep_index cycles_for_tb3 sim in
          Some (push_tb tb3 sim)
        else Some sim
      end
    end
  end.

(** Part 2: the co-issued store/load packet.  The driver assigns neither
    instruction's [delay_slots]; [d_stw] and [d_ldw] stand for them. *)
Definition parallel_ep (d_stw d_ldw : Z) : ExecutePacket :=
  mkExecutePacket
    [ mkInstruction STORE "STW" ".D2" d_stw "" "B2, *B0++" 1 false;
      mkInstruction LOAD "LDW" ".D1" d_ldw "" "*A1++, A2" 2 true ]
    1 1.

Definition simulate_part2 (u : Indeterminate) (d_stw d_ldw : Z)
    (sim : VLIWSimulator) : VLIWSimulator :=
  snd (translateEPWithDeferredStores u (parallel_ep d_stw d_ldw) sim).

(** Part 3: the single software-pipelined loop, [ILC = 8]. *)
Definition simulate_part3 (sim : VLIWSimulator) : VLIWSimulator :=
  let sim := parseSoftwarePipelinedLoop sim in
  let sim := set_state 0 (set_ILC 8 sim) in
  translateSoftwarePipelinedLoop sim.

(** Part 4: the nested loop.  [nested_setup] is the state on entry to the
    [for] loop over outer iterations, [nested_outer] that loop. *)
Definition nested_setup (sim : VLIWSimulator) : VLIWSimulator :=
  let sim := parseNestedSoftwarePipelinedLoop sim in
  set_state 0 (set_A1 3 (set_RILC 7 (set_ILC 7 sim))).

Definition total_outer_iterations : nat := 3.

Fixpoint nested_outer (remaining : nat) (outer_iteration : Z)
    (sim : VLIWSimulator) : VLIWSimulator :=
  match remaining with
  | O => sim
  | S r =>
      let sim := log [OuterIteration outer_iteration] sim in
      let sim := translateNestedLoop sim in
      if (state sim =? 0) && (A1 sim =? 0) then sim
      else nested_outer r (outer_iteration + 1) sim
  end.

Definition simulate_part4 (sim : VLIWSimulator) : VLIWSimulator :=
  nested_outer total_outer_iterations 1 (nested_setup sim).

Definition simulateExecution (u : Indeterminate) (d_stw d_ldw : Z)
    : option VLIWSimulator :=
  match simulate_part1 new_simulator with
  | None => None
  | Some sim =>
      Some (simulate_part4 (simulate_part3 (simulate_part2 u d_stw d_ldw sim)))
  end.

(** * Definitions used in the statements *)

(** ** Builder *)

(** One guarded pass of the [while] loop. *)
Definition loop_step (gc : list ExecutePacket) (s : BuildState) : BuildState :=
  if loop_guard gc s then loop_body gc s else s.

(** Small streams for concrete runs. *)
Definition nop_packet (n c : Z) : ExecutePacket :=
  mkExecutePacket [createInstruction NOP "NOP" "" 0 "" n "" false] c n.

Definition branch_packet (n c delay : Z) : ExecutePacket :=
  mkExecutePacket [createInstruction BRANCH "B" ".S2" delay "LOOP" n "" false] c n.

Definition with_code (gc : list ExecutePacket) : VLIWSimulator :=
  set_guest_code gc new_simulator.

(** A packet with every branch retyped: what the stream would be without
    its branches. *)
Definition unbranch (insn : Instruction) : Instruction :=
  if InsnType_eqb (insn_type insn) BRANCH
  then mkInstruction OTHER (mnemonic insn) (insn_unit insn) (delay_slots insn)
                     (predicate insn) (operands insn) (line_num insn)
                     (parallel insn)
  else insn.

Definition strip_branches (ep : ExecutePacket) : ExecutePacket :=
  mkExecutePacket (map unbranch (instructions ep)) (cycles ep) (ep_num ep).

Definition far_branches (ep : ExecutePacket) : Prop :=
  forall insn, In insn (instructions ep) -> insn_type insn = BRANCH ->
               unconstrained <= delay_slots insn.

(** Budget, index and packets of the two builds evolve in lockstep. *)
Definition lockstep (s t : BuildState) : Prop :=
  b_cycles t = b_cycles s /\ b_ep_index t = b_ep_index s /\
  b_packets t = map strip_branches (b_packets s).

(** ** Tracker *)

(** The obligations one packet contributes: one per branch, in order. *)
Definition branch_contexts (ep : ExecutePacket) : list SavedContext :=
  map (fun insn => mkSavedContext (delay_slots insn) (operands insn) (line_num insn))
      (filter (fun insn => InsnType_eqb (insn_type insn) BRANCH) (instructions ep)).

(** ** Reorderer *)

Definition is_store (insn : Instruction) : bool :=
  InsnType_eqb (insn_type insn) STORE.

Definition non_store (insn : Instruction) : bool := negb (is_store insn).

(** The three members a [DeferredStore] keeps of a store. *)
Definition to_deferred (insn : Instruction) : DeferredStore :=
  mkDeferredStore (operands insn) (insn_unit insn) (line_num insn).

(** The stores rebuilt from a list of deferred stores, the first of them
    being the [k]-th rebuilt store of the call. *)
Fixpoint rebuild_from (u : Indeterminate) (k : nat) (dss : list DeferredStore)
    : list Instruction :=
  match dss with
  | [] => []
  | ds :: rest => rebuild_store u k ds :: rebuild_from u (S k) rest
  end.

(** What a rebuilt store keeps of the original and what it replaces. *)
Definition rebuilt_of (s s' : Instruction) : Prop :=
  insn_type s' = STORE /\ mnemonic s' = "STW" /\ predicate s' = "" /\
  insn_unit s' = insn_unit s /\ operands s' = operands s /\
  line_num s' = line_num s.

(** The members of an instruction that the source assigns on every path
    through the reorderer: all of them for a non-store, all but
    [delay_slots] and [parallel] for a store. *)
Definition assigned_members (insn : Instruction)
    : InsnType * string * string * string * string * Z * option (Z * bool) :=
  (insn_type insn, mnemonic insn, insn_unit insn, predicate insn,
   operands insn, line_num insn,
   if is_store insn then None else Some (delay_slots insn, parallel insn)).

Definition assigned_view (ep : ExecutePacket) :=
  (map assigned_members (instructions ep), cycles ep, ep_num ep).

(** The claim's reading of the result: the original instructions
    themselves, non-stores first, then stores. *)
Definition stores_last (l : list Instruction) : list Instruction :=
  filter non_store l ++ filter is_store l.

(** A packet with a predicated half-word store. *)
Definition predicated_store_packet : ExecutePacket :=
  mkExecutePacket
    [ createInstruction STORE "STH" ".D2" 0 "B0, *B4++" 11 "[A1]" true;
      createInstruction LOAD "LDW" ".D1" 4 "*A4++, A0" 7 "" true ]
    1 10.

(** ** Nested kernel *)

Definition contains (t : InsnType) (ep : ExecutePacket) : bool :=
  existsb (fun insn => InsnType_eqb (insn_type insn) t) (instructions ep).

(** The packets before the first one that contains a branch. *)
Fixpoint before_first_branch (l : list ExecutePacket) : list ExecutePacket :=
  match l with
  | [] => []
  | ep :: rest =>
      if contains BRANCH ep then [] else ep :: before_first_branch rest
  end.

(** The claim's reading: only packets made of nothing but SPMASK markers
    are left out of the run before the first branch. *)
Definition only_spmask (ep : ExecutePacket) : bool :=
  match instructions ep with
  | [] => false
  | l => forallb (fun insn => InsnType_eqb (insn_type insn) SPMASK) l
  end.

Definition claimed_kernel (start : nat) (gc : list ExecutePacket)
    : list ExecutePacket :=
  filter (fun ep => negb (only_spmask ep)) (before_first_branch (skipn start gc)).

(** A kernel in which an SPMASK is issued together with a load, as the
    source's own stream issues SPMASK together with other instructions. *)
Definition spmask_load_kernel : VLIWSimulator :=
  set_sploop_start_index 0
    (with_code
       [ mkExecutePacket [createInstruction LOAD "LDW" ".D1" 0 "*A4++, A0" 7 "" false] 1 1;
         mkExecutePacket
           [ createInstruction SPMASK "SPMASK" ".D" 0 "" 13 "" false;
             createInstruction LOAD "LDW" ".D1" 0 "*A6, A0" 16 "[A1]" true ] 1 2;
         mkExecutePacket [createInstruction ARITHMETIC "MV" ".L2X" 0 "A0, B0" 9 "" false] 1 3;
         mkExecutePacket [createInstruction BRANCH "BR" ".S2" 5 "TARGET" 12 "" false] 1 4 ]).

(** ** Phase machines *)

Definition count_label (label : string) (sim : VLIWSimulator) : nat :=
  List.length (filter (fun tb => String.eqb (start_label tb) label)
                      (translation_blocks sim)).

Definition count_event (e : Event) (es : list Event) : nat :=
  List.length (filter (Event_eqb e) es).

(** The driver's completion test, and the states the nested machine is in
    after a call made by the driver: after the first call, and after each
    further call, which the driver makes only when the test failed. *)
Definition nested_done (sim : VLIWSimulator) : bool :=
  (state sim =? 0) && (A1 sim =? 0).

Inductive nested_reach (s0 : VLIWSimulator) : VLIWSimulator -> Prop :=
  | reach_first (es : list Event) :
      nested_reach s0 (translateNestedLoop (log es s0))
  | reach_next (s : VLIWSimulator) (es : list Event) :
      nested_reach s0 s -> nested_done s = false ->
      nested_reach s0 (translateNestedLoop (log es s)).

(** Counters are not negative, and a state from which the driver calls
    again is in state 2 with both loop counters at least 1, so that the
    decrements of that call do not go below zero either. *)
Definition counters_ok (s : VLIWSimulator) : Prop :=
  0 <= ILC s /\ 0 <= RILC s /\ 0 <= A1 s /\
  (nested_done s = false -> state s = 2 /\ 1 <= ILC s /\ 1 <= A1 s).

(** ** Further notions *)

(** The range of the source's [int]. *)
Definition int_min : Z := -2147483648.
Definition int_max : Z := 2147483647.

Definition in_int_range (z : Z) : Prop := int_min <= z <= int_max.

(** Sum of the cycle costs of a run of packets. *)
Definition total_cycles (l : list ExecutePacket) : Z :=
  fold_right (fun ep a => cycles ep + a) 0 l.

(** The driver's pattern [tb = translateWithConstraint(...);
    translation_blocks.push_back(tb)]. *)
Definition build_and_push (start_ep budget : Z) (sim : VLIWSimulator)
    : VLIWSimulator :=
  push_tb (fst (translateWithConstraint start_ep budget sim))
          (snd (translateWithConstraint start_ep budget sim)).

(** The driver's sequence build, push, query, build again right after the
    first block: the second block. *)
Definition second_block (start_ep budget : Z) (sim : VLIWSimulator)
    : TranslationBlock :=
  let sim1 := build_and_push start_ep budget sim in
  let next := start_ep + Z.of_nat (List.length
                (packets (fst (translateWithConstraint start_ep budget sim)))) in
  fst (translateWithConstraint next
         (fst (getCyclesFromPrecedingTB sim1))
         (snd (getCyclesFromPrecedingTB sim1))).

(** Block ids: every id handed out is in [0, current_tb_id), and the blocks
    are stored in the order of their ids. *)
Definition ids_ok_at (tbs : list TranslationBlock) (next : Z) : Prop :=
  0 <= next /\
  Forall (fun tb => 0 <= tb_id tb < next) tbs /\
  StronglySorted Z.lt (map tb_id tbs).

Definition ids_ok (sim : VLIWSimulator) : Prop :=
  ids_ok_at (translation_blocks sim) (current_tb_id sim).

Definition is_executing (e : Event) : bool :=
  match e with Executing _ => true | _ => false end.

Definition is_generated (e : Event) : bool :=
  match e with Generated _ => true | _ => false end.

(** The blocks one call of a phase machine appends to
    [translation_blocks], read off the paths of the machine. *)
Definition single_new_blocks (sim : VLIWSimulator) : list TranslationBlock :=
  if state sim =? 0 then
    fst (translateNormalLoop sim)
    :: (if 0 <? ILC sim - 1
        then [fst (translateKernelLoop
                     (set_current_tb_id (current_tb_id sim + 1) sim))]
        else [])
  else [].

Definition nested_new_blocks (sim : VLIWSimulator) : list TranslationBlock :=
  if state sim =? 0 then
    fst (translateNestedProlog sim)
    :: (if 0 <? ILC sim - 1
        then [fst (translateNestedInner
                     (set_current_tb_id (current_tb_id sim + 1) sim))]
        else [])
  else if state sim =? 2 then
    if find_tb_id "NESTED_STATE_2" (translation_blocks sim) =? -1
    then [fst (translateNestedOverlap sim)]
    else []
  else [].

(** * Properties *)

(** ** The per-packet scan *)

Lemma InsnType_eqb_eq (a b : InsnType) : InsnType_eqb a b = true <-> a = b.
Proof. destruct a, b; simpl; split; intro H; congruence. Qed.

Lemma min_delay_fold_le (l : list Instruction) (m : Z) :
  fold_left min_delay_step l m <= m.
Proof.
  revert m; induction l as [|i l IH]; intro m; simpl; [lia|].
  specialize (IH (min_delay_step m i)).
  unfold min_delay_step in *.
  destruct (InsnType_eqb (insn_type i) BRANCH && (delay_slots i <? m)) eqn:E; [|lia].
  apply andb_true_iff in E as [_ E]. apply Z.ltb_lt in E. lia.
Qed.

Lemma min_delay_fold_branch (l : list Instruction) (m : Z) (insn : Instruction) :
  In insn l -> insn_type insn = BRANCH ->
  fold_left min_delay_step l m <= delay_slots insn.
Proof.
  revert m; induction l as [|i l IH]; intros m Hin Hb; simpl in *; [contradiction|].
  destruct Hin as [->|Hin]; [|now apply IH].
  pose proof (min_delay_fold_le l (min_delay_step m insn)) as Hle.
  unfold min_delay_step in *. rewrite Hb in *. simpl in *.
  destruct (delay_slots insn <? m) eqn:E; [lia|].
  apply Z.ltb_ge in E. lia.
Qed.

Lemma min_delay_fold_far (l : list Instruction) :
  (forall insn, In insn l -> insn_type insn = BRANCH ->
                unconstrained <= delay_slots insn) ->
  fold_left min_delay_step l unconstrained = unconstrained.
Proof.
  induction l as [|i l IH]; intro H; simpl; [reflexivity|].
  assert (Hi : min_delay_step unconstrained i = unconstrained).
  { unfold min_delay_step.
    destruct (InsnType_eqb (insn_type i) BRANCH) eqn:E; simpl; [|reflexivity].
    apply InsnType_eqb_eq in E.
    specialize (H i (or_introl eq_refl) E).
    destruct (delay_slots i <? unconstrained) eqn:E'; [|reflexivity].
    apply Z.ltb_lt in E'. lia. }
  rewrite Hi. apply IH. intros insn Hin. apply H. now right.
Qed.

Lemma next_cycles_le_sub (c : Z) (ep : ExecutePacket) :
  next_cycles c ep <= c - cycles ep.
Proof.
  unfold next_cycles.
  destruct ((min_current_branch_delay ep <? unconstrained)
            && (min_current_branch_delay ep <? c - cycles ep)) eqn:E; [|lia].
  apply andb_true_iff in E as [_ E]. apply Z.ltb_lt in E. lia.
Qed.

Lemma next_cycles_le_branch (c : Z) (ep : ExecutePacket) (insn : Instruction) :
  In insn (instructions ep) -> insn_type insn = BRANCH ->
  delay_slots insn < unconstrained ->
  next_cycles c ep <= delay_slots insn.
Proof.
  intros Hin Hb Hd.
  pose proof (min_delay_fold_branch (instructions ep) unconstrained insn Hin Hb) as Hm.
  unfold next_cycles, min_current_branch_delay.
  set (m := fold_left min_delay_step (instructions ep) unconstrained) in *.
  assert (Hlt : (m <? unconstrained) = true) by (apply Z.ltb_lt; lia).
  rewrite Hlt. simpl.
  destruct (m <? c - cycles ep) eqn:E; [lia|].
  apply Z.ltb_ge in E. lia.
Qed.

(** ** The [while] loop as an iterated step *)

Lemma loop_guard_inv (gc : list ExecutePacket) (s : BuildState) :
  loop_guard gc s = true ->
  0 <= b_ep_index s < Z.of_nat (List.length gc) /\ 0 < b_cycles s.
Proof.
  unfold loop_guard. intro H.
  apply andb_true_iff in H as [H H3]. apply andb_true_iff in H as [H1 H2].
  apply Z.leb_le in H1. apply Z.ltb_lt in H2. apply Z.ltb_lt in H3. lia.
Qed.

Lemma loop_guard_nonpositive (gc : list ExecutePacket) (s : BuildState) :
  b_cycles s <= 0 -> loop_guard gc s = false.
Proof.
  intro H. unfold loop_guard.
  assert (E : (0 <? b_cycles s) = false) by (apply Z.ltb_ge; lia).
  rewrite E. apply andb_false_r.
Qed.

Lemma loop_body_guarded (gc : list ExecutePacket) (s : BuildState) :
  loop_guard gc s = true ->
  exists ep, nth_error gc (Z.to_nat (b_ep_index s)) = Some ep /\
    loop_body gc s =
      mkBuildState (b_packets s ++ [ep]) (save_branch_contexts ep (b_contexts s))
                   (next_cycles (b_cycles s) ep) (b_ep_index s + 1).
Proof.
  intro Hg. apply loop_guard_inv in Hg as [Hi _].
  unfold loop_body.
  destruct (nth_error gc (Z.to_nat (b_ep_index s))) as [ep|] eqn:E.
  - exists ep. split; reflexivity.
  - apply nth_error_None in E. lia.
Qed.

Lemma loop_step_guarded (gc : list ExecutePacket) (s : BuildState) :
  loop_guard gc s = true -> loop_step gc s = loop_body gc s.
Proof. intro H. unfold loop_step. now rewrite H. Qed.

Lemma loop_step_stopped (gc : list ExecutePacket) (s : BuildState) :
  loop_guard gc s = false -> loop_step gc s = s.
Proof. intro H. unfold loop_step. now rewrite H. Qed.

Lemma iter_stopped (gc : list ExecutePacket) (n : nat) (s : BuildState) :
  loop_guard gc s = false -> Nat.iter n (loop_step gc) s = s.
Proof.
  intro H. induction n as [|n IH]; simpl; [reflexivity|].
  rewrite IH. now apply loop_step_stopped.
Qed.

Lemma while_loop_iter (gc : list ExecutePacket) (fuel : nat) (s : BuildState) :
  while_loop fuel gc s = Nat.iter fuel (loop_step gc) s.
Proof.
  revert s; induction fuel as [|f IH]; intro s; [reflexivity|].
  rewrite Nat.iter_succ_r. cbn [while_loop].
  destruct (loop_guard gc s) eqn:Hg.
  - rewrite (loop_step_guarded gc s Hg).
    destruct (b_cycles (loop_body gc s) <=? 0) eqn:Hc.
    + apply Z.leb_le in Hc.
      now rewrite iter_stopped by (now apply loop_guard_nonpositive).
    + apply IH.
  - rewrite (loop_step_stopped gc s Hg). now rewrite iter_stopped.
Qed.

(** Each pass keeps what was collected and adds at most one packet, and the
    index moves with the number of packets. *)
Lemma iter_packets (gc : list ExecutePacket) (n : nat) (s : BuildState) :
  exists l, b_packets (Nat.iter n (loop_step gc) s) = b_packets s ++ l /\
            (List.length l <= n)%nat /\
            b_ep_index (Nat.iter n (loop_step gc) s)
              = b_ep_index s + Z.of_nat (List.length l).
Proof.
  revert s; induction n as [|n IH]; intro s.
  - exists []. simpl. rewrite app_nil_r. repeat split; [lia|lia].
  - rewrite Nat.iter_succ_r.
    destruct (loop_guard gc s) eqn:Hg.
    + rewrite (loop_step_guarded gc s Hg).
      destruct (loop_body_guarded gc s Hg) as (ep & _ & ->).
      destruct (IH (mkBuildState (b_packets s ++ [ep])
                      (save_branch_contexts ep (b_contexts s))
                      (next_cycles (b_cycles s) ep) (b_ep_index s + 1)))
        as (l & Hp & Hl & Hi).
      exists (ep :: l). cbn [b_packets b_ep_index] in *.
      rewrite Hp, Hi, <- app_assoc. simpl List.length.
      repeat split; [lia|lia].
    + rewrite (loop_step_stopped gc s Hg), iter_stopped by assumption.
      exists []. rewrite app_nil_r. simpl. repeat split; lia.
Qed.

(** The fuel of [build_loop] is enough: more passes change nothing. *)
Lemma iter_fuel_enough (gc : list ExecutePacket) (n extra : nat) (s : BuildState) :
  (b_ep_index s < 0 \/ Z.of_nat (List.length gc) - b_ep_index s <= Z.of_nat n) ->
  Nat.iter (n + extra) (loop_step gc) s = Nat.iter n (loop_step gc) s.
Proof.
  revert s; induction n as [|n IH]; intros s H.
  - simpl. apply iter_stopped. unfold loop_guard.
    destruct (0 <=? b_ep_index s) eqn:E1; [|reflexivity].
    destruct (b_ep_index s <? Z.of_nat (List.length gc)) eqn:E2; [|reflexivity].
    apply Z.leb_le in E1. apply Z.ltb_lt in E2. simpl in H. lia.
  - replace (S n + extra)%nat with (S (n + extra)) by lia.
    rewrite !Nat.iter_succ_r.
    destruct (loop_guard gc s) eqn:Hg.
    + rewrite (loop_step_guarded gc s Hg).
      destruct (loop_body_guarded gc s Hg) as (ep & _ & ->).
      apply loop_guard_inv in Hg.
      apply IH. cbn [b_ep_index]. right. lia.
    + rewrite (loop_step_stopped gc s Hg). now rewrite !iter_stopped.
Qed.

Lemma while_loop_fuel_enough (sim : VLIWSimulator) (start_ep initial_cycles : Z)
    (extra : nat) :
  while_loop (List.length (guest_code sim) + extra) (guest_code sim)
             (build_init sim start_ep initial_cycles)
  = build_loop sim start_ep initial_cycles.
Proof.
  unfold build_loop. rewrite !while_loop_iter.
  apply iter_fuel_enough. cbn [build_init b_ep_index].
  destruct (Z.ltb_spec start_ep 0); [now left|right; lia].
Qed.

(** ** Builder progress *)

(** Spec invariant: the end index is the start index plus the number of
    packets minus one (for every start index and budget). *)
Lemma build_end_index (sim : VLIWSimulator) (start_ep budget : Z) :
  let tb := fst (translateWithConstraint start_ep budget sim) in
  end_ep_index tb = Some (start_ep + Z.of_nat (List.length (packets tb)) - 1).
Proof.
  cbn. unfold build_loop. rewrite while_loop_iter.
  destruct (iter_packets (guest_code sim) (List.length (guest_code sim))
              (build_init sim start_ep budget)) as (l & Hp & _ & Hi).
  rewrite Hp, Hi. cbn. f_equal; lia.
Qed.

(** C3, as the code has it: for an in-range start index and a positive
    budget the block begins with the packet at the start index, whatever
    that packet costs, so it is not empty and its end index is not below
    its start index; with a budget that is not positive the loop is not
    entered, the block is empty and its end index is the start index
    minus one. *)
Theorem build_progress (sim : VLIWSimulator) (start_ep budget : Z) :
  0 <= start_ep < Z.of_nat (List.length (guest_code sim)) ->
  let tb := fst (translateWithConstraint start_ep budget sim) in
  (0 < budget ->
   exists ep rest,
     nth_error (guest_code sim) (Z.to_nat start_ep) = Some ep /\
     packets tb = ep :: rest /\
     end_ep_index tb = Some (start_ep + Z.of_nat (List.length (packets tb)) - 1) /\
     start_ep <= start_ep + Z.of_nat (List.length (packets tb)) - 1) /\
  (budget <= 0 ->
   packets tb = [] /\ end_ep_index tb = Some (start_ep - 1)).
Proof.
  intros Hr tb. split.
  - intro Hb.
    pose proof (build_end_index sim start_ep budget) as He. fold tb in He.
    assert (Hg : loop_guard (guest_code sim) (build_init sim start_ep budget) = true).
    { unfold loop_guard. cbn [build_init b_ep_index b_cycles].
      rewrite !andb_true_iff, Z.leb_le, !Z.ltb_lt. lia. }
    destruct (loop_body_guarded _ _ Hg) as (ep & Hnth & Hbody).
    assert (Hp : exists rest, packets tb = ep :: rest).
    { subst tb. cbn. unfold build_loop. rewrite while_loop_iter.
      destruct (List.length (guest_code sim)) as [|f] eqn:Hlen; [simpl in Hr; lia|].
      rewrite Nat.iter_succ_r, (loop_step_guarded _ _ Hg), Hbody.
      match goal with |- context [Nat.iter f _ ?s1] =>
        destruct (iter_packets (guest_code sim) f s1) as (l & Hl & _)
      end.
      rewrite Hl. cbn. now exists l. }
    destruct Hp as (rest & Hp).
    exists ep, rest. cbn [build_init b_ep_index] in Hnth.
    repeat split; try assumption.
    rewrite Hp. cbn [List.length]. lia.
  - intro Hb. subst tb. cbn. unfold build_loop.
    rewrite while_loop_iter, iter_stopped
      by (apply loop_guard_nonpositive; cbn; lia).
    split; reflexivity.
Qed.

(** The first packet costs 5 cycles, the budget is 1. *)
Lemma build_progress_witness :
  let sim := with_code [nop_packet 1 5; nop_packet 2 1] in
  let tb := fst (translateWithConstraint 0 1 sim) in
  exists ep rest,
    nth_error (guest_code sim) (Z.to_nat 0) = Some ep /\
    packets tb = ep :: rest /\
    end_ep_index tb = Some (0 + Z.of_nat (List.length (packets tb)) - 1) /\
    0 <= 0 + Z.of_nat (List.length (packets tb)) - 1.
Proof.
  intros sim tb.
  assert (Hr : 0 <= 0 < Z.of_nat (List.length (guest_code sim)))
    by (vm_compute; split; [discriminate|reflexivity]).
  apply (proj1 (build_progress sim 0 1 Hr)).
  reflexivity.
Defined.

(** C3 as stated fails: a budget that is not positive yields an empty block
    whose end index is below its start index.  The second part shows the
    builder receiving such a budget from the tracker: a branch with delay 0
    closes the first block, the query returns 0, and the next build is
    empty. *)
Lemma build_progress_counterexample :
  (let tb := fst (translateWithConstraint 0 0 (parseGuestCode new_simulator)) in
   packets tb = [] /\ end_ep_index tb = Some (-1)) /\
  (let sim := with_code [branch_packet 1 1 0; nop_packet 2 1] in
   let '(tb1, sim) := translateWithConstraint 0 initial_cycles sim in
   let sim := push_tb tb1 sim in
   let '(budget, sim) := getCyclesFromPrecedingTB sim in
   let start_ep := getNextStartEP sim in
   let tb2 := fst (translateWithConstraint 1 budget sim) in
   budget = 0 /\ start_ep = Some 1 /\ index_in_range 1 (guest_code sim) = true /\
   packets tb2 = [] /\ end_ep_index tb2 = Some 0).
Proof. vm_compute. repeat split; reflexivity. Qed.

(** ** Branch-delay clamp *)

Lemma iter_position (gc : list ExecutePacket) (k : nat) :
  forall (fuel : nat) (s : BuildState) (ep : ExecutePacket),
  nth_error (b_packets (Nat.iter fuel (loop_step gc) s))
            (List.length (b_packets s) + k) = Some ep ->
  b_cycles (Nat.iter (S k) (loop_step gc) s)
    = next_cycles (b_cycles (Nat.iter k (loop_step gc) s)) ep /\
  (List.length (b_packets (Nat.iter (S k) (loop_step gc) s))
    <= List.length (b_packets s) + S k)%nat /\
  (S k <= fuel)%nat.
Proof.
  induction k as [|k IH]; intros fuel s ep Hnth.
  - assert (Hg : loop_guard gc s = true).
    { destruct (loop_guard gc s) eqn:Hg; [reflexivity|].
      rewrite iter_stopped in Hnth by assumption.
      assert (nth_error (b_packets s) (List.length (b_packets s) + 0) = None)
        by (apply nth_error_None; lia).
      congruence. }
    destruct fuel as [|f].
    { simpl in Hnth.
      assert (nth_error (b_packets s) (List.length (b_packets s) + 0) = None)
        by (apply nth_error_None; lia).
      congruence. }
    rewrite Nat.iter_succ_r, (loop_step_guarded _ _ Hg) in Hnth.
    destruct (loop_body_guarded _ _ Hg) as (ep0 & _ & Hbody).
    rewrite Hbody in Hnth.
    match type of Hnth with context [Nat.iter f _ ?s1] =>
      destruct (iter_packets gc f s1) as (l & Hl & _)
    end.
    rewrite Hl in Hnth. cbn [b_packets] in Hnth.
    rewrite <- app_assoc, Nat.add_0_r, nth_error_app2 in Hnth by lia.
    rewrite Nat.sub_diag in Hnth. simpl in Hnth. injection Hnth as <-.
    simpl Nat.iter. rewrite (loop_step_guarded _ _ Hg), Hbody.
    cbn. rewrite length_app. simpl. repeat split; lia.
  - assert (Hg : loop_guard gc s = true).
    { destruct (loop_guard gc s) eqn:Hg; [reflexivity|].
      rewrite iter_stopped in Hnth by assumption.
      assert (nth_error (b_packets s) (List.length (b_packets s) + S k) = None)
        by (apply nth_error_None; lia).
      congruence. }
    destruct fuel as [|f].
    { simpl in Hnth.
      assert (nth_error (b_packets s) (List.length (b_packets s) + S k) = None)
        by (apply nth_error_None; lia).
      congruence. }
    rewrite Nat.iter_succ_r, (loop_step_guarded _ _ Hg) in Hnth.
    destruct (loop_body_guarded _ _ Hg) as (ep0 & _ & Hbody).
    assert (Hlb : List.length (b_packets (loop_body gc s))
                  = S (List.length (b_packets s))).
    { rewrite Hbody. cbn. rewrite length_app. simpl. lia. }
    assert (E : forall n, Nat.iter (S n) (loop_step gc) s
                          = Nat.iter n (loop_step gc) (loop_body gc s)).
    { intro n. now rewrite Nat.iter_succ_r, (loop_step_guarded _ _ Hg). }
    specialize (@IH f (loop_body gc s) ep).
    rewrite Hlb in IH.
    replace (S (List.length (b_packets s)) + k)%nat
      with (List.length (b_packets s) + S k)%nat in IH by lia.
    destruct (IH Hnth) as (Hc & Hlen & Hf).
    rewrite (E (S k)), (E k).
    repeat split; [exact Hc|lia|lia].
Qed.

(** With every packet costing at least one cycle, a remaining budget of
    [c] admits at most [c] further packets. *)
Lemma iter_length_budget (gc : list ExecutePacket) :
  (forall p, In p gc -> 1 <= cycles p) ->
  forall (n : nat) (s : BuildState),
  (List.length (b_packets (Nat.iter n (loop_step gc) s))
    <= List.length (b_packets s) + Z.to_nat (b_cycles s))%nat.
Proof.
  intros Hcost n; induction n as [|n IH]; intro s; [simpl; lia|].
  rewrite Nat.iter_succ_r.
  destruct (loop_guard gc s) eqn:Hg.
  - rewrite (loop_step_guarded _ _ Hg).
    destruct (loop_body_guarded _ _ Hg) as (ep & Hnth & Hbody).
    apply loop_guard_inv in Hg as [_ Hc].
    specialize (IH (loop_body gc s)). rewrite Hbody in IH at 2 3.
    cbn [b_packets b_cycles] in IH. rewrite length_app in IH. simpl in IH.
    pose proof (next_cycles_le_sub (b_cycles s) ep) as Hn.
    pose proof (Hcost ep (nth_error_In _ _ Hnth)) as H1.
    lia.
  - rewrite (loop_step_stopped _ _ Hg), iter_stopped by assumption. lia.
Qed.

(** C1, as the code has it.  When the packet at relative position [k] of a
    build holds a branch whose delay is below the sentinel 1000, the budget
    left after that packet is [next_cycles] of the budget before it (the
    packet's smallest branch delay when that is below the sentinel and below
    what subtraction leaves), hence at most that branch's delay; and when
    every packet of the stream costs at least one cycle, the block holds no
    packet beyond relative position [k + delay]. *)
Theorem branch_delay_clamp (sim : VLIWSimulator) (start_ep budget : Z)
    (k : nat) (ep : ExecutePacket) (insn : Instruction) :
  let tb := fst (translateWithConstraint start_ep budget sim) in
  let after n := while_loop n (guest_code sim) (build_init sim start_ep budget) in
  nth_error (packets tb) k = Some ep ->
  In insn (instructions ep) ->
  insn_type insn = BRANCH ->
  delay_slots insn < unconstrained ->
  b_cycles (after (S k)) = next_cycles (b_cycles (after k)) ep /\
  b_cycles (after (S k)) <= delay_slots insn /\
  ((forall p, In p (guest_code sim) -> 1 <= cycles p) ->
   (List.length (packets tb) <= S k + Z.to_nat (delay_slots insn))%nat).
Proof.
  intros tb after Hnth Hin Hb Hd. subst tb after. cbn in Hnth.
  unfold build_loop in Hnth. cbn [translateWithConstraint fst packets].
  unfold build_loop. rewrite !while_loop_iter in *.
  set (gc := guest_code sim) in *.
  set (s0 := build_init sim start_ep budget) in *.
  destruct (@iter_position gc k (List.length gc) s0 ep Hnth) as (Hc & Hlen & Hf).
  pose proof (next_cycles_le_branch
                (b_cycles (Nat.iter k (loop_step gc) s0)) ep insn Hin Hb Hd) as Hle.
  repeat split; [exact Hc|lia|].
  intro Hcost.
  replace (List.length gc) with ((List.length gc - S k) + S k)%nat by lia.
  rewrite Nat.iter_add.
  pose proof (iter_length_budget gc Hcost (List.length gc - S k)
                (Nat.iter (S k) (loop_step gc) s0)) as Hbud.
  subst s0. cbn [build_init b_packets List.length] in Hlen.
  lia.
Qed.

Lemma branch_delay_clamp_witness :
  let sim := parseGuestCode new_simulator in
  let tb := fst (translateWithConstraint 0 1000 sim) in
  b_cycles (while_loop 1 (guest_code sim) (build_init sim 0 1000)) <= 5 /\
  (List.length (packets tb) <= 6)%nat.
Proof.
  intros sim tb.
  pose (insn := createInstruction BRANCH "B" ".S2" 5 "LOOP" 1 "" false).
  pose (ep := mkExecutePacket [insn] 1 1).
  assert (Hnth : nth_error (packets tb) 0 = Some ep) by reflexivity.
  assert (Hin : In insn (instructions ep)) by (left; reflexivity).
  assert (Hd : delay_slots insn < unconstrained) by reflexivity.
  destruct (branch_delay_clamp sim 0 1000 0 ep insn Hnth Hin eq_refl Hd)
    as (_ & Hle & Hlen).
  split; [exact Hle|].
  apply Hlen. intros p Hp.
  vm_compute in Hp.
  repeat (destruct Hp as [<-|Hp]; [vm_compute; discriminate|]).
  contradiction.
Defined.

(** C1 as stated fails in two ways.  (a) A branch whose delay is 1000 or
    more never clamps: with budget 5000 the delay 1000 is below the 4999
    left after the packet, yet 4999 stays.  (b) The budget counts cycles,
    not packets: after a branch with delay 1 at position 0 the budget is 1,
    and two packets of cost 0 follow it into the block, the second at
    relative position 2 > 0 + 1. *)
Lemma branch_delay_clamp_counterexample :
  (let sim := with_code [branch_packet 1 1 1000] in
   let tb := fst (translateWithConstraint 0 5000 sim) in
   let after n := while_loop n (guest_code sim) (build_init sim 0 5000) in
   nth_error (packets tb) 0 = Some (branch_packet 1 1 1000) /\
   1000 < b_cycles (after 0%nat) - cycles (branch_packet 1 1 1000) /\
   b_cycles (after 1%nat) = 4999) /\
  (let sim := with_code [branch_packet 1 1 1; nop_packet 2 0; nop_packet 3 0] in
   let tb := fst (translateWithConstraint 0 1000 sim) in
   let after n := while_loop n (guest_code sim) (build_init sim 0 1000) in
   nth_error (packets tb) 0 = Some (branch_packet 1 1 1) /\
   1 < b_cycles (after 0%nat) - cycles (branch_packet 1 1 1) /\
   b_cycles (after 1%nat) = 1 /\
   nth_error (packets tb) (0 + 1 + 1) = Some (nop_packet 3 0)).
Proof. vm_compute. repeat split; reflexivity. Qed.

(** ** The sentinel 1000 *)

Lemma unbranch_not_branch (insn : Instruction) :
  insn_type (unbranch insn) <> BRANCH.
Proof.
  unfold unbranch.
  destruct (InsnType_eqb (insn_type insn) BRANCH) eqn:E; simpl; [discriminate|].
  intro H. apply InsnType_eqb_eq in H. congruence.
Qed.

Lemma far_branches_strip (ep : ExecutePacket) : far_branches (strip_branches ep).
Proof.
  intros insn Hin Hb. cbn in Hin. apply in_map_iff in Hin as (i & <- & _).
  now destruct (unbranch_not_branch i).
Qed.

Lemma next_cycles_far (c : Z) (ep : ExecutePacket) :
  far_branches ep ->
  min_current_branch_delay ep = unconstrained /\
  next_cycles c ep = c - cycles ep.
Proof.
  intro H. unfold next_cycles, min_current_branch_delay.
  rewrite (min_delay_fold_far (instructions ep) H).
  split; reflexivity.
Qed.

Lemma lockstep_step (gc : list ExecutePacket) (s t : BuildState) :
  (forall ep, In ep gc -> far_branches ep) ->
  lockstep s t ->
  lockstep (loop_step gc s) (loop_step (map strip_branches gc) t).
Proof.
  intros Hfar (Hc & Hi & Hp).
  assert (Hg : loop_guard (map strip_branches gc) t = loop_guard gc s).
  { unfold loop_guard. now rewrite length_map, Hc, Hi. }
  destruct (loop_guard gc s) eqn:Hgs.
  - rewrite (loop_step_guarded _ _ Hgs), (loop_step_guarded _ _ Hg).
    destruct (loop_body_guarded _ _ Hgs) as (ep & Hnth & ->).
    unfold loop_body. rewrite Hi, nth_error_map, Hnth. cbn.
    destruct (next_cycles_far (b_cycles s) ep
                (Hfar ep (nth_error_In _ _ Hnth))) as (_ & ->).
    destruct (next_cycles_far (b_cycles t) (strip_branches ep)
                (far_branches_strip ep)) as (_ & ->).
    unfold lockstep. cbn. rewrite Hc, Hp, map_app. repeat split.
  - rewrite (loop_step_stopped _ _ Hgs), (loop_step_stopped _ _ Hg).
    repeat split; assumption.
Qed.

Lemma lockstep_iter (gc : list ExecutePacket) (n : nat) (s t : BuildState) :
  (forall ep, In ep gc -> far_branches ep) ->
  lockstep s t ->
  lockstep (Nat.iter n (loop_step gc) s)
           (Nat.iter n (loop_step (map strip_branches gc)) t).
Proof.
  intros Hfar H. induction n as [|n IH]; [exact H|].
  simpl. now apply lockstep_step.
Qed.

(** ** Branch-delay tracker *)

Lemma save_context_fold (l : list Instruction) (ctxs : list SavedContext) :
  fold_left save_context_step l ctxs
  = ctxs ++ map (fun insn => mkSavedContext (delay_slots insn) (operands insn)
                                            (line_num insn))
                (filter (fun insn => InsnType_eqb (insn_type insn) BRANCH) l).
Proof.
  revert ctxs; induction l as [|i l IH]; intro ctxs; simpl.
  - now rewrite app_nil_r.
  - rewrite IH. unfold save_context_step.
    destruct (InsnType_eqb (insn_type i) BRANCH); simpl; [|reflexivity].
    now rewrite <- app_assoc.
Qed.

Lemma save_branch_contexts_app (ep : ExecutePacket) (ctxs : list SavedContext) :
  save_branch_contexts ep ctxs = ctxs ++ branch_contexts ep.
Proof. apply save_context_fold. Qed.

Lemma iter_contexts (gc : list ExecutePacket) (n : nat) (s : BuildState) :
  exists l, b_packets (Nat.iter n (loop_step gc) s) = b_packets s ++ l /\
            b_contexts (Nat.iter n (loop_step gc) s)
              = b_contexts s ++ flat_map branch_contexts l.
Proof.
  revert s; induction n as [|n IH]; intro s.
  - exists []. simpl. now rewrite !app_nil_r.
  - rewrite Nat.iter_succ_r.
    destruct (loop_guard gc s) eqn:Hg.
    + rewrite (loop_step_guarded _ _ Hg).
      destruct (loop_body_guarded _ _ Hg) as (ep & _ & ->).
      match goal with |- context [Nat.iter n _ ?s1] =>
        destruct (IH s1) as (l & Hp & Hc)
      end.
      exists (ep :: l). rewrite Hp, Hc. cbn.
      now rewrite save_branch_contexts_app, <- !app_assoc.
    + rewrite (loop_step_stopped _ _ Hg), iter_stopped by assumption.
      exists []. simpl. now rewrite !app_nil_r.
Qed.

(** What a build leaves in the tracker: everything that was there, then the
    obligations of the block's packets. *)
Lemma build_records_branches (sim : VLIWSimulator) (start_ep budget : Z) :
  saved_contexts (snd (translateWithConstraint start_ep budget sim))
  = saved_contexts sim
    ++ flat_map branch_contexts
         (packets (fst (translateWithConstraint start_ep budget sim))).
Proof.
  cbn. unfold build_loop. rewrite while_loop_iter.
  destruct (iter_contexts (guest_code sim) (List.length (guest_code sim))
              (build_init sim start_ep budget)) as (l & Hp & Hc).
  rewrite Hp, Hc. reflexivity.
Qed.

Lemma query_contexts (sim : VLIWSimulator) :
  saved_contexts (snd (getCyclesFromPrecedingTB sim))
  = filter (fun ctx => 0 <? remaining_delay ctx) (saved_contexts sim).
Proof.
  unfold getCyclesFromPrecedingTB.
  destruct (saved_contexts sim) as [|c0 l] eqn:E; [cbn; exact E|].
  cbn [snd set_saved_contexts saved_contexts]. unfold drop_expired.
  apply filter_ext. intro ctx.
  destruct (Z.leb_spec (remaining_delay ctx) 0), (Z.ltb_spec 0 (remaining_delay ctx));
    simpl; try reflexivity; lia.
Qed.

(** The smallest delay in a non-empty tracker is what the query returns. *)
Lemma min_remaining_delay_le (ctxs : list SavedContext) (m0 : Z) :
  min_remaining_delay ctxs m0 <= m0 /\
  forall ctx, In ctx ctxs -> min_remaining_delay ctxs m0 <= remaining_delay ctx.
Proof.
  unfold min_remaining_delay.
  revert m0; induction ctxs as [|c l IH]; intro m0; simpl.
  - split; [lia|contradiction].
  - destruct (IH (if remaining_delay c <? m0 then remaining_delay c else m0))
      as (H1 & H2).
    destruct (Z.ltb_spec (remaining_delay c) m0); split; try lia;
      intros ctx [<-|Hin]; try lia; now apply H2.
Qed.

(** C8, as the code has it.  The tracker is a member of the simulator, not
    of a build.  After a build and the budget query that follows it, the
    tracker holds, in order, every obligation with a positive delay: those
    present before the build and those recorded for the branches of the
    block.  Only obligations whose delay is not positive are discarded, and
    an obligation that stays bounds the value of the next query. *)
Theorem tracker_after_build_and_query (sim : VLIWSimulator) (start_ep budget : Z) :
  let tb := fst (translateWithConstraint start_ep budget sim) in
  let sim1 := snd (translateWithConstraint start_ep budget sim) in
  let sim2 := snd (getCyclesFromPrecedingTB sim1) in
  saved_contexts sim2
    = filter (fun ctx => 0 <? remaining_delay ctx)
             (saved_contexts sim ++ flat_map branch_contexts (packets tb)) /\
  (forall ctx, In ctx (saved_contexts sim2) ->
     0 < remaining_delay ctx /\
     fst (getCyclesFromPrecedingTB sim2) <= remaining_delay ctx).
Proof.
  intros tb sim1 sim2. subst sim2.
  rewrite query_contexts. subst sim1 tb. rewrite build_records_branches.
  split; [reflexivity|].
  intros ctx Hin. split.
  - apply filter_In in Hin as [_ H]. now apply Z.ltb_lt in H.
  - set (s2 := snd (getCyclesFromPrecedingTB
                      (snd (translateWithConstraint start_ep budget sim)))).
    assert (Hs2 : In ctx (saved_contexts s2)).
    { subst s2. now rewrite query_contexts, build_records_branches. }
    clearbody s2. unfold getCyclesFromPrecedingTB.
    destruct (saved_contexts s2) as [|c0 l] eqn:E; [contradiction|].
    cbn [fst]. now apply min_remaining_delay_le.
Qed.

(** C8 as stated fails on the driver's own stream: the first build records
    six branches with delay 5, all six are still in the tracker after the
    query that follows it, and together with the one branch of the second
    block they set the budget of the third build, whose packets hold no
    branch at all. *)
Lemma tracker_locality_counterexample :
  let sim0 := parseGuestCode new_simulator in
  let '(tb0, sim) := translateWithConstraint 0 initial_cycles sim0 in
  let '(budget1, sim) := getCyclesFromPrecedingTB (push_tb tb0 sim) in
  let '(tb1, sim1) := translateWithConstraint 6 budget1 sim in
  let '(budget2, sim2) := getCyclesFromPrecedingTB (push_tb tb1 sim1) in
  saved_contexts sim0 = [] /\
  map remaining_delay (saved_contexts sim) = [5; 5; 5; 5; 5; 5] /\
  saved_contexts sim = flat_map branch_contexts (packets tb0) /\
  budget1 = 5 /\
  map remaining_delay (saved_contexts sim2) = [5; 5; 5; 5; 5; 5; 5] /\
  budget2 = 5 /\ budget2 <> unconstrained /\
  flat_map branch_contexts
    (packets (fst (translateWithConstraint 11 budget2 sim2))) = [].
Proof. vm_compute. repeat split; try reflexivity; discriminate. Qed.

(** ** Packet reorderer *)

Lemma defer_fold (l : list Instruction) (dss : list DeferredStore)
    (tr : list Instruction) :
  fold_left defer_step l (dss, tr)
  = (dss ++ map to_deferred (filter is_store l), tr ++ filter non_store l).
Proof.
  revert dss tr; induction l as [|i l IH]; intros dss tr; simpl.
  - now rewrite !app_nil_r.
  - unfold defer_step at 2, non_store, is_store. cbn [fst snd].
    destruct (InsnType_eqb (insn_type i) STORE); rewrite IH; simpl;
      now rewrite <- app_assoc.
Qed.

Lemma emit_fold (u : Indeterminate) (dss : list DeferredStore) (k : nat)
    (tr : list Instruction) :
  fold_left (emit_step u) dss (k, tr)
  = ((k + List.length dss)%nat, tr ++ rebuild_from u k dss).
Proof.
  revert k tr; induction dss as [|ds dss IH]; intros k tr; simpl.
  - now rewrite app_nil_r, Nat.add_0_r.
  - unfold emit_step at 2. cbn [fst snd]. rewrite IH, <- app_assoc.
    f_equal. lia.
Qed.

Lemma reorder_instructions (u : Indeterminate) (ep : ExecutePacket) :
  instructions (reorder u ep)
  = filter non_store (instructions ep)
    ++ rebuild_from u 0 (map to_deferred (filter is_store (instructions ep))).
Proof.
  unfold reorder, translateEPWithDeferredStores.
  rewrite defer_fold. cbn [app]. rewrite emit_fold. reflexivity.
Qed.

Lemma reorder_cycles (u : Indeterminate) (ep : ExecutePacket) :
  cycles (reorder u ep) = cycles ep /\ ep_num (reorder u ep) = ep_num ep.
Proof.
  unfold reorder, translateEPWithDeferredStores.
  rewrite defer_fold. cbn [app]. rewrite emit_fold. split; reflexivity.
Qed.

Lemma rebuild_from_rebuilt (u : Indeterminate) (l : list Instruction) (k : nat) :
  Forall2 rebuilt_of l (rebuild_from u k (map to_deferred l)).
Proof.
  revert k; induction l as [|s l IH]; intro k; simpl; constructor.
  - repeat split.
  - apply IH.
Qed.

Lemma rebuild_from_stores (u : Indeterminate) (dss : list DeferredStore) (k : nat) :
  filter is_store (rebuild_from u k dss) = rebuild_from u k dss /\
  filter non_store (rebuild_from u k dss) = [] /\
  map to_deferred (rebuild_from u k dss) = dss.
Proof.
  revert k; induction dss as [|[o un ln] dss IH]; intro k; simpl.
  - repeat split.
  - destruct (IH (S k)) as (H1 & H2 & H3).
    unfold non_store, is_store in *. simpl.
    fold is_store in *. rewrite H1, H3.
    repeat split. exact H2.
Qed.

Lemma filter_non_store_idem (l : list Instruction) :
  filter non_store (filter non_store l) = filter non_store l /\
  filter is_store (filter non_store l) = [].
Proof.
  induction l as [|i l [IH1 IH2]]; simpl; [split; reflexivity|].
  destruct (non_store i) eqn:E; simpl; [|split; assumption].
  rewrite E, IH1. unfold non_store in E.
  apply negb_true_iff in E. rewrite E. split; [reflexivity|exact IH2].
Qed.

Lemma store_partition_length (l : list Instruction) :
  (List.length (filter non_store l) + List.length (filter is_store l))%nat
  = List.length l.
Proof.
  induction l as [|i l IH]; simpl; [reflexivity|].
  unfold non_store in *. destruct (is_store i); simpl; lia.
Qed.

(** C4, as the code has it.  The reordered packet lists the non-store
    instructions unchanged and in their original order, followed by one
    store per original store in the original order.  Each of these stores is
    rebuilt from the three members kept in [DeferredStore]: it has the
    original's unit, operands and line, the mnemonic "STW" and an empty
    predicate.  Cycle cost, packet number and the number of instructions
    are kept, and the driver's packet [Store, Load (co-issued)] becomes
    [Load, Store]. *)
Theorem reorder_characterization (u : Indeterminate) (ep : ExecutePacket) :
  (exists stores',
     instructions (reorder u ep)
       = filter non_store (instructions ep) ++ stores' /\
     Forall2 rebuilt_of (filter is_store (instructions ep)) stores') /\
  List.length (instructions (reorder u ep)) = List.length (instructions ep) /\
  cycles (reorder u ep) = cycles ep /\ ep_num (reorder u ep) = ep_num ep /\
  (forall d_stw d_ldw,
     instructions (reorder u (parallel_ep d_stw d_ldw))
     = [ mkInstruction LOAD "LDW" ".D1" d_ldw "" "*A1++, A2" 2 true;
         mkInstruction STORE "STW" ".D2" (fst (u O)) "" "B2, *B0++" 1 (snd (u O)) ]).
Proof.
  pose proof (rebuild_from_rebuilt u (filter is_store (instructions ep)) 0) as HF.
  split; [|split; [|split; [apply reorder_cycles|split; [apply reorder_cycles|]]]].
  - eexists. split; [apply reorder_instructions|exact HF].
  - rewrite reorder_instructions, length_app.
    rewrite <- (Forall2_length HF). apply store_partition_length.
  - intros d_stw d_ldw. reflexivity.
Qed.

(** C4 as stated fails: a predicated half-word store comes back as an
    unpredicated "STW", whatever the unassigned members hold, so the
    instructions with all their fields are not preserved. *)
Lemma reorder_fields_counterexample :
  ~ (exists u, instructions (reorder u predicated_store_packet)
               = stores_last (instructions predicated_store_packet)) /\
  (exists s', nth_error (instructions (reorder (fun _ => (0, true))
                                               predicated_store_packet)) 1
              = Some s' /\
              mnemonic s' = "STW" /\ predicate s' = "").
Proof.
  split.
  - intros [u H]. rewrite reorder_instructions in H. cbn in H.
    injection H as H. discriminate H.
  - eexists. split; [reflexivity|split; reflexivity].
Qed.

Lemma reorder_second_pass (a b : Indeterminate) (ep : ExecutePacket) :
  reorder b (reorder a ep) = reorder b ep.
Proof.
  pose proof (reorder_instructions b (reorder a ep)) as Hi.
  pose proof (reorder_cycles b (reorder a ep)) as [Hc Hn].
  pose proof (reorder_cycles a ep) as [Hc' Hn'].
  pose proof (reorder_instructions b ep) as Hi'.
  pose proof (reorder_cycles b ep) as [Hc'' Hn''].
  rewrite (reorder_instructions a ep) in Hi.
  rewrite !filter_app in Hi.
  destruct (filter_non_store_idem (instructions ep)) as [F1 F2].
  destruct (rebuild_from_stores a
              (map to_deferred (filter is_store (instructions ep))) 0)
    as (G1 & G2 & G3).
  rewrite F1, F2, G1, G2, app_nil_r in Hi. cbn [app] in Hi.
  rewrite G3 in Hi.
  destruct (reorder b (reorder a ep)) as [i1 c1 n1],
           (reorder b ep) as [i2 c2 n2].
  cbn in *. congruence.
Qed.

Lemma rebuild_from_assigned (u v : Indeterminate) (dss : list DeferredStore)
    (k : nat) :
  map assigned_members (rebuild_from u k dss)
  = map assigned_members (rebuild_from v k dss).
Proof.
  revert k; induction dss as [|ds dss IH]; intro k; simpl; [reflexivity|].
  now rewrite IH.
Qed.

Lemma reorder_assigned (u v : Indeterminate) (ep : ExecutePacket) :
  assigned_view (reorder u ep) = assigned_view (reorder v ep).
Proof.
  unfold assigned_view.
  destruct (reorder_cycles u ep) as [-> ->].
  destruct (reorder_cycles v ep) as [-> ->].
  rewrite !reorder_instructions, !map_app.
  now rewrite (rebuild_from_assigned u v).
Qed.

(** C9, as the code has it.  The source never assigns [delay_slots] and
    [parallel] of a rebuilt store, on any pass.  On every member it does
    assign (kind, mnemonic, unit, predicate, operands and line of every
    instruction, all members of the non-stores, cycle cost and packet
    number) the result of two passes is the result of one pass, whatever
    the three passes leave in the unassigned members; and the packets are
    equal outright when the second of the two passes leaves there what the
    single pass leaves. *)
Theorem reorder_idempotent (u1 u2 u3 : Indeterminate) (ep : ExecutePacket) :
  assigned_view (reorder u2 (reorder u1 ep)) = assigned_view (reorder u3 ep) /\
  reorder u3 (reorder u1 ep) = reorder u3 ep.
Proof.
  split.
  - rewrite reorder_second_pass. apply reorder_assigned.
  - apply reorder_second_pass.
Qed.

(** C9 as stated fails: when the second pass leaves other values in the two
    unassigned members of the rebuilt store than the first pass did, the
    packet after two passes is not the packet after one. *)
Lemma reorder_idempotent_counterexample :
  let uA : Indeterminate := fun _ => (0, false) in
  let uB : Indeterminate := fun _ => (1, true) in
  reorder uB (reorder uA (parallel_ep 0 0)) <> reorder uA (parallel_ep 0 0) /\
  map delay_slots (instructions (reorder uA (parallel_ep 0 0))) = [0; 0] /\
  map delay_slots (instructions (reorder uB (reorder uA (parallel_ep 0 0)))) = [0; 1].
Proof.
  intros uA uB. split; [|split; reflexivity].
  intro H. apply (f_equal (fun ep => map delay_slots (instructions ep))) in H.
  vm_compute in H. discriminate H.
Qed.

(** ** Kernel boundary of the nested loop *)

Lemma flags_fold (l : list Instruction) (a b : bool) :
  fold_left flags_step l (a, b)
  = (a || existsb (fun insn => InsnType_eqb (insn_type insn) SPMASK) l,
     b || existsb (fun insn => InsnType_eqb (insn_type insn) BRANCH) l).
Proof.
  revert a b; induction l as [|i l IH]; intros a b; simpl.
  - now rewrite !orb_false_r.
  - unfold flags_step at 2. cbn [fst snd]. rewrite IH.
    destruct (InsnType_eqb (insn_type i) SPMASK),
             (InsnType_eqb (insn_type i) BRANCH); simpl;
      now rewrite ?orb_true_r.
Qed.

Lemma has_flags (ep : ExecutePacket) :
  has_spmask ep = contains SPMASK ep /\ has_branch ep = contains BRANCH ep.
Proof. unfold has_spmask, has_branch. rewrite flags_fold. split; reflexivity. Qed.

Lemma inner_loop_spec (rest acc : list ExecutePacket) :
  inner_loop rest acc
  = acc ++ filter (fun ep => negb (contains SPMASK ep)) (before_first_branch rest).
Proof.
  revert acc; induction rest as [|ep rest IH]; intro acc; simpl.
  - now rewrite app_nil_r.
  - destruct (has_flags ep) as [-> ->].
    destruct (contains BRANCH ep); simpl; [now rewrite app_nil_r|].
    destruct (contains SPMASK ep); simpl; rewrite IH; [reflexivity|].
    now rewrite <- app_assoc.
Qed.

(** C7, as the code has it.  The kernel block is labelled NESTED_STATE_1
    and holds the packets from the kernel-start index up to, and excluding,
    the first packet that contains a branch, without those that contain an
    SPMASK instruction (alone or next to other instructions); a negative
    start index gives an empty block.  On the nested stream of the source
    these are the four packets at indices 6 to 9. *)
Theorem nested_kernel_boundary (sim : VLIWSimulator) :
  let tb := fst (translateNestedInner sim) in
  start_label tb = "NESTED_STATE_1" /\
  packets tb
  = (if sploop_start_index sim <? 0 then []
     else filter (fun ep => negb (contains SPMASK ep))
            (before_first_branch
               (skipn (Z.to_nat (sploop_start_index sim)) (guest_code sim)))) /\
  (let nested := parseNestedSoftwarePipelinedLoop sim in
   packets (fst (translateNestedInner nested))
   = firstn 4 (skipn 6 (guest_code nested))).
Proof.
  cbn. split; [reflexivity|]. split; [|reflexivity].
  destruct (sploop_start_index sim <? 0); [reflexivity|].
  apply inner_loop_spec.
Qed.

(** C7 as stated fails: the packet holding SPMASK and a load is not a
    packet containing only an SPMASK marker, yet the scan leaves it out. *)
Lemma nested_kernel_counterexample :
  map ep_num (packets (fst (translateNestedInner spmask_load_kernel))) = [1; 3] /\
  map ep_num (claimed_kernel 0 (guest_code spmask_load_kernel)) = [1; 2; 3] /\
  packets (fst (translateNestedInner spmask_load_kernel))
  <> claimed_kernel 0 (guest_code spmask_load_kernel).
Proof.
  split; [reflexivity|]. split; [reflexivity|].
  intro H. apply (f_equal (@List.length _)) in H. vm_compute in H. discriminate H.
Qed.

(** ** Phase machines *)

(** C5.  The driver's nested scenario, after its first three parts.  The
    loop is entered with ILC = 7, RILC = 7, A1 = 3 in state 0.  The first
    call generates the prolog block and executes it once, generates the
    kernel block and executes it six times, and leaves ILC = 7, A1 = 2 in
    state 2 (overlap).  The second call generates the overlap block; the
    third call finds it and generates nothing.  Each of these two calls
    executes the overlap block once, re-executes the prolog block once and
    the kernel block six times.  Three outer iterations are used, and the
    machine ends in state 0 with A1 = 0, the driver's completion test. *)
Theorem nested_loop_scenario (u : Indeterminate) (d_stw d_ldw : Z) :
  match simulate_part1 new_simulator with
  | None => False
  | Some p1 =>
      let pre := simulate_part3 (simulate_part2 u d_stw d_ldw p1) in
      let s0 := nested_setup pre in
      let s1 := translateNestedLoop (log [OuterIteration 1] s0) in
      let sf := simulate_part4 pre in
      simulateExecution u d_stw d_ldw = Some sf /\
      (ILC s0, RILC s0, A1 s0, state s0) = (7, 7, 3, 0) /\
      trace s1 = trace pre
                 ++ [OuterIteration 1; Generated 5; Executing 5; Generated 6]
                 ++ repeat (Executing 6) 6 /\
      (ILC s1, RILC s1, A1 s1, state s1) = (7, 7, 2, 2) /\
      trace sf = trace s1
                 ++ [OuterIteration 2; Generated 7; Executing 7; Executing 5]
                 ++ repeat (Executing 6) 6
                 ++ [OuterIteration 3; Executing 7; Executing 5]
                 ++ repeat (Executing 6) 6 /\
      map (fun tb => (tb_id tb, start_label tb))
          (skipn (List.length (translation_blocks pre)) (translation_blocks sf))
      = [(5, "NESTED_STATE_0"); (6, "NESTED_STATE_1"); (7, "NESTED_STATE_2")] /\
      count_label "NESTED_STATE_1" sf = 1%nat /\
      count_label "NESTED_STATE_2" sf = 1%nat /\
      count_event (Generated 7) (trace sf) = 1%nat /\
      count_event (Executing 7) (trace sf) = 2%nat /\
      (count_event (OuterIteration 1) (trace sf)
       + count_event (OuterIteration 2) (trace sf)
       + count_event (OuterIteration 3) (trace sf) = 3)%nat /\
      (ILC sf, RILC sf, A1 sf, state sf) = (7, 7, 0, 0) /\
      (state sf =? 0) && (A1 sf =? 0) = true
  end.
Proof. vm_compute. repeat split; reflexivity. Qed.

(** *** Translation on entry to state 0 *)

(** The state-2 path consults the cache: when an overlap block exists, a
    call adds no block and takes no new id. *)
Lemma nested_overlap_cache_hit (sim : VLIWSimulator) :
  state sim = 2 ->
  find_tb_id "NESTED_STATE_2" (translation_blocks sim) <> -1 ->
  translation_blocks (translateNestedLoop sim) = translation_blocks sim /\
  current_tb_id (translateNestedLoop sim) = current_tb_id sim.
Proof.
  intros Hs Hc. unfold translateNestedLoop. rewrite Hs. cbn [Z.eqb Pos.eqb].
  apply Z.eqb_neq in Hc. rewrite Hc.
  unfold reload_and_advance.
  repeat match goal with
         | |- context [if ?b then _ else _] => destruct b
         end; split; reflexivity.
Qed.

(** The state-0 path does not: every call made in state 0 appends a new
    block labelled NESTED_STATE_0, whatever the blocks already present. *)
Lemma nested_prolog_no_cache_check (sim : VLIWSimulator) :
  state sim = 0 ->
  exists tb,
    start_label tb = "NESTED_STATE_0" /\ tb_id tb = current_tb_id sim /\
    nth_error (translation_blocks (translateNestedLoop sim))
              (List.length (translation_blocks sim)) = Some tb.
Proof.
  intro Hs. exists (fst (translateNestedProlog sim)).
  split; [reflexivity|]. split; [reflexivity|].
  unfold translateNestedLoop. rewrite Hs. cbn [Z.eqb].
  unfold reload_and_advance. cbn.
  repeat match goal with
         | |- context [if ?b then _ else _] => destruct b
         end; cbn; rewrite <- ?app_assoc;
    rewrite nth_error_app2 by lia; rewrite Nat.sub_diag; reflexivity.
Qed.

(** C2 at the failing input: one more request after the driver's run has
    completed.  The machine is in state 0 again, the prolog and the kernel
    label each own one block, and the call translates both labels a second
    time (blocks 8 and 9); the single-level machine does the same with its
    first label. *)
Theorem phase_translated_twice (u : Indeterminate) (d_stw d_ldw : Z) :
  match simulateExecution u d_stw d_ldw with
  | None => False
  | Some sf =>
      let s := translateNestedLoop sf in
      state sf = 0 /\
      count_label "NESTED_STATE_0" sf = 1%nat /\
      count_label "NESTED_STATE_1" sf = 1%nat /\
      count_label "NESTED_STATE_0" s = 2%nat /\
      count_label "NESTED_STATE_1" s = 2%nat /\
      trace s = trace sf ++ [Generated 8; Executing 8; Generated 9]
                         ++ repeat (Executing 9) 6 /\
      count_label "LOOP_STATE_0" sf = 1%nat /\
      count_label "LOOP_STATE_0" (translateSoftwarePipelinedLoop sf) = 2%nat
  end.
Proof. vm_compute. repeat split; reflexivity. Qed.

(** *** Counters *)

Lemma reload_and_advance_counters (sim : VLIWSimulator) :
  let s' := reload_and_advance sim in
  ILC s' = RILC sim /\ RILC s' = RILC sim /\ A1 s' = A1 sim - 1 /\
  state s' = (if 0 <? A1 sim - 1 then 2 else 0).
Proof.
  unfold reload_and_advance. cbn.
  destruct (0 <? A1 sim - 1); repeat split; reflexivity.
Qed.

(** One call of the nested machine in state 0 or 2. *)
Lemma nested_call_counters (sim : VLIWSimulator) :
  state sim = 0 \/ state sim = 2 ->
  ILC (translateNestedLoop sim) = RILC sim /\
  RILC (translateNestedLoop sim) = RILC sim /\
  A1 (translateNestedLoop sim) = A1 sim - 1 /\
  state (translateNestedLoop sim) = (if 0 <? A1 sim - 1 then 2 else 0).
Proof.
  set (next := if 0 <? A1 sim - 1 then 2 else 0).
  intros [Hs|Hs];
    unfold translateNestedLoop, translateNestedProlog, translateNestedInner,
           translateNestedOverlap, labelled_tb;
    rewrite Hs; cbn [Z.eqb Pos.eqb]; cbv zeta;
    repeat match goal with
           | |- context [if ?b then _ else _] => destruct b
           end;
    match goal with
    | |- context [reload_and_advance ?X] =>
        destruct (reload_and_advance_counters X) as (-> & -> & -> & ->)
    end; subst next; repeat split; reflexivity.
Qed.

(** One call of the single-level machine in state 0. *)
Lemma single_call_counters (sim : VLIWSimulator) :
  state sim = 0 ->
  ILC (translateSoftwarePipelinedLoop sim)
    = (if 0 <? ILC sim - 1 then 0 else ILC sim - 1) /\
  RILC (translateSoftwarePipelinedLoop sim) = RILC sim /\
  A1 (translateSoftwarePipelinedLoop sim) = A1 sim /\
  state (translateSoftwarePipelinedLoop sim) = 0.
Proof.
  intro Hs. unfold translateSoftwarePipelinedLoop. rewrite Hs. cbn.
  destruct (0 <? ILC sim - 1); repeat split; reflexivity.
Qed.

Lemma nested_outer_unfold (r : nat) (k : Z) (sim : VLIWSimulator) :
  nested_outer (S r) k sim
  = (let s1 := translateNestedLoop (log [OuterIteration k] sim) in
     if nested_done s1 then s1 else nested_outer r (k + 1) s1).
Proof. reflexivity. Qed.

Lemma counters_ok_call (s : VLIWSimulator) (es : list Event) :
  (state s = 0 \/ state s = 2) -> 1 <= RILC s -> 1 <= A1 s ->
  counters_ok (translateNestedLoop (log es s)) /\
  RILC (translateNestedLoop (log es s)) = RILC s.
Proof.
  intros Hs Hr Ha.
  destruct (nested_call_counters (log es s) Hs) as (Hi & Hr' & Ha' & Hst).
  cbn [log ILC RILC A1 state] in *.
  unfold counters_ok, nested_done. rewrite Hi, Hr', Ha', Hst.
  split; [|reflexivity].
  split; [lia|]. split; [lia|]. split; [lia|].
  destruct (Z.ltb_spec 0 (A1 s - 1)) as [Hlt|Hge].
  - intros _. repeat split; lia.
  - intro Hd. cbn in Hd.
    destruct (Z.eqb_spec (A1 s - 1) 0); [discriminate|lia].
Qed.

Lemma nested_reach_ok (s0 s : VLIWSimulator) :
  state s0 = 0 -> 1 <= RILC s0 -> 1 <= A1 s0 ->
  nested_reach s0 s -> counters_ok s /\ RILC s = RILC s0.
Proof.
  intros Hs Hr Ha H. induction H as [es|s es H IH Hd].
  - apply counters_ok_call; auto.
  - destruct IH as [(_ & _ & _ & Hok) Hrs].
    destruct (Hok Hd) as (Hst & _ & Ha1).
    destruct (counters_ok_call s es (or_intror Hst)) as [H1 H2]; try lia.
    split; [exact H1|congruence].
Qed.

Lemma nested_outer_reach (s0 : VLIWSimulator) (n : nat) :
  forall (k : Z) (s : VLIWSimulator),
  nested_reach s0 s -> nested_done s = false ->
  nested_reach s0 (nested_outer n k s).
Proof.
  induction n as [|n IH]; intros k s H Hd; [exact H|].
  rewrite nested_outer_unfold. cbv zeta.
  pose proof (reach_next s0 s [OuterIteration k] H Hd) as H1.
  destruct (nested_done (translateNestedLoop (log [OuterIteration k] s))) eqn:E.
  - exact H1.
  - now apply IH.
Qed.

Lemma nested_driver_reach (s0 : VLIWSimulator) (n : nat) (k : Z) :
  nested_reach s0 (nested_outer (S n) k s0).
Proof.
  rewrite nested_outer_unfold. cbv zeta.
  pose proof (reach_first s0 [OuterIteration k]) as H1.
  destruct (nested_done (translateNestedLoop (log [OuterIteration k] s0))) eqn:E.
  - exact H1.
  - now apply nested_outer_reach.
Qed.

(** C6, as the code has it.  The machines signal no error: every call
    returns a simulator state.  The single-level machine entered in state 0
    with ILC at least 1 ends with ILC = 0 and the other counters unchanged,
    whatever RILC and A1 are.  The nested machine entered in state 0 with
    ILC, RILC and A1 at least 1 leaves ILC, RILC and A1 non-negative after
    every call the driver makes, whatever the number of outer iterations,
    and ILC and A1 are at least 1 whenever the driver calls again. *)
Theorem counters_nonnegative (s0 : VLIWSimulator) :
  state s0 = 0 -> 1 <= ILC s0 ->
  (ILC (translateSoftwarePipelinedLoop s0) = 0 /\
   RILC (translateSoftwarePipelinedLoop s0) = RILC s0 /\
   A1 (translateSoftwarePipelinedLoop s0) = A1 s0) /\
  (1 <= RILC s0 -> 1 <= A1 s0 ->
   (forall s, nested_reach s0 s ->
      0 <= ILC s /\ 0 <= RILC s /\ 0 <= A1 s /\
      (nested_done s = false -> 1 <= ILC s /\ 1 <= A1 s)) /\
   (forall n k, nested_reach s0 (nested_outer (S n) k s0))).
Proof.
  intros Hs Hi. split.
  - destruct (single_call_counters s0 Hs) as (H1 & H2 & H3 & _).
    rewrite H1, H2, H3.
    destruct (Z.ltb_spec 0 (ILC s0 - 1)); repeat split; lia.
  - intros Hr Ha. split.
    + intros s H.
      destruct (nested_reach_ok s0 s Hs Hr Ha H) as [(H1 & H2 & H3 & H4) _].
      repeat split; try assumption; now apply H4.
    + intros n k. apply nested_driver_reach.
Qed.

(** The driver's own entry states: the single loop is entered with ILC = 8
    while RILC and A1 are still 0, the nested loop with 7, 7 and 3. *)
Lemma counters_nonnegative_witness :
  (let s1 := set_state 0 (set_ILC 8 (parseSoftwarePipelinedLoop new_simulator)) in
   (RILC s1, A1 s1) = (0, 0) /\
   ILC (translateSoftwarePipelinedLoop s1) = 0 /\
   RILC (translateSoftwarePipelinedLoop s1) = 0 /\
   A1 (translateSoftwarePipelinedLoop s1) = 0) /\
  (let s0 := nested_setup new_simulator in
   let sf := nested_outer total_outer_iterations 1 s0 in
   0 <= ILC sf /\ 0 <= RILC sf /\ 0 <= A1 sf).
Proof.
  split.
  - intro s1.
    assert (Hs : state s1 = 0) by reflexivity.
    assert (Hi : 1 <= ILC s1) by (vm_compute; discriminate).
    destruct (counters_nonnegative s1 Hs Hi) as ((H1 & H2 & H3) & _).
    split; [reflexivity|]. split; [exact H1|]. split; [exact H2|exact H3].
  - intros s0 sf.
    assert (Hs : state s0 = 0) by reflexivity.
    assert (Hi : 1 <= ILC s0) by (vm_compute; discriminate).
    assert (Hr : 1 <= RILC s0) by (vm_compute; discriminate).
    assert (Ha : 1 <= A1 s0) by (vm_compute; discriminate).
    destruct (counters_nonnegative s0 Hs Hi) as (_ & Hn).
    destruct (Hn Hr Ha) as (Hok & Hreach).
    destruct (Hok sf (Hreach 2%nat 1)) as (H1 & H2 & H3 & _).
    repeat split; assumption.
Defined.

(** C6 as stated fails: nothing checks a counter before it is decremented.
    On a fresh simulator (all counters 0) the single-level machine returns
    with ILC = -1 and the nested machine with A1 = -1; the same happens to
    A1 when the nested machine is called once more after the driver's run. *)
Lemma counter_underflow_counterexample :
  ILC (translateSoftwarePipelinedLoop
         (parseSoftwarePipelinedLoop new_simulator)) = -1 /\
  A1 (translateNestedLoop
        (parseNestedSoftwarePipelinedLoop new_simulator)) = -1 /\
  A1 (translateNestedLoop (simulate_part4 new_simulator)) = -1.
Proof. vm_compute. repeat split; reflexivity. Qed.

(** * Further properties of the builder *)

Lemma skipn_nth_error {A : Type} (l : list A) (i : nat) (x : A) :
  nth_error l i = Some x -> skipn i l = x :: skipn (S i) l.
Proof.
  revert i; induction l as [|a l IH]; intros [|i] H; simpl in *; try discriminate.
  - now injection H as ->.
  - now apply IH.
Qed.

(** What a number of passes adds: a contiguous run of the stream, whose
    cost bounds the budget that is left, and which was entered with budget
    still available before its last packet. *)
Lemma iter_run (gc : list ExecutePacket) (n : nat) :
  forall s : BuildState,
  exists l,
    b_packets (Nat.iter n (loop_step gc) s) = b_packets s ++ l /\
    (loop_guard gc s = true \/ l = []) /\
    l = firstn (List.length l) (skipn (Z.to_nat (b_ep_index s)) gc) /\
    b_ep_index (Nat.iter n (loop_step gc) s)
      = b_ep_index s + Z.of_nat (List.length l) /\
    b_cycles (Nat.iter n (loop_step gc) s) <= b_cycles s - total_cycles l /\
    (l = [] \/ total_cycles (removelast l) < b_cycles s).
Proof.
  induction n as [|n IH]; intro s.
  - exists []. simpl. rewrite app_nil_r.
    split; [reflexivity|]. split; [now right|]. split; [reflexivity|].
    split; [lia|]. split; [lia|now left].
  - rewrite Nat.iter_succ_r.
    destruct (loop_guard gc s) eqn:Hg.
    + rewrite (loop_step_guarded _ _ Hg).
      destruct (loop_body_guarded _ _ Hg) as (ep & Hnth & Hbody).
      destruct (IH (loop_body gc s)) as (l & Hp & _ & Hl & Hi & Hc & Hlast).
      apply loop_guard_inv in Hg as [Hidx Hpos].
      rewrite Hbody in Hp, Hl, Hi, Hc, Hlast. rewrite Hbody.
      cbn [b_packets b_ep_index b_cycles] in Hp, Hl, Hi, Hc, Hlast.
      pose proof (next_cycles_le_sub (b_cycles s) ep) as Hn.
      exists (ep :: l). rewrite Hp, Hi, <- app_assoc.
      split; [reflexivity|]. split; [now left|]. split; [|split; [|split]].
      * rewrite (skipn_nth_error _ _ _ Hnth). cbn [List.length firstn].
        f_equal. replace (S (Z.to_nat (b_ep_index s)))
          with (Z.to_nat (b_ep_index s + 1)) by lia.
        exact Hl.
      * cbn [List.length]. lia.
      * cbn [total_cycles fold_right]. fold (total_cycles l). lia.
      * right. destruct l as [|p l']; [cbn; lia|].
        destruct Hlast as [Hnil|Hlast]; [discriminate|].
        change (removelast (ep :: p :: l')) with (ep :: removelast (p :: l')).
        cbn [total_cycles fold_right]. fold (total_cycles (removelast (p :: l'))).
        lia.
    + rewrite (loop_step_stopped _ _ Hg), iter_stopped by assumption.
      exists []. rewrite app_nil_r. cbn.
      split; [reflexivity|]. split; [now right|]. split; [reflexivity|].
      split; [lia|]. split; [lia|now left].
Qed.

(** A block is a contiguous run of the stream that starts at the start
    index; its recorded start, end and budget are the arguments and the
    start index plus the number of packets minus one; its id is the
    simulator's next id.  This holds for every start index and budget
    (an out-of-range start gives the empty run). *)
Theorem build_block_contiguous (sim : VLIWSimulator) (start_ep budget : Z) :
  let tb := fst (translateWithConstraint start_ep budget sim) in
  packets tb = firstn (List.length (packets tb))
                      (skipn (Z.to_nat start_ep) (guest_code sim)) /\
  start_ep_index tb = Some start_ep /\
  end_ep_index tb = Some (start_ep + Z.of_nat (List.length (packets tb)) - 1) /\
  max_cycles tb = Some budget /\
  tb_id tb = current_tb_id sim /\ start_label tb = "".
Proof.
  cbn. unfold build_loop. rewrite while_loop_iter.
  destruct (iter_run (guest_code sim) (List.length (guest_code sim))
              (build_init sim start_ep budget))
    as (l & Hp & _ & Hl & Hi & _).
  cbn [build_init b_packets b_ep_index app] in Hp, Hl, Hi.
  rewrite Hp, Hi. repeat split; try exact Hl; f_equal; lia.
Qed.

(** The budget pays for every packet of a block but the last: the cost of
    all packets before the last one is below the budget the build was
    given, and what is left at the end is at most the budget minus the
    cost of the whole block. *)
Theorem build_cost_bound (sim : VLIWSimulator) (start_ep budget : Z) :
  let tb := fst (translateWithConstraint start_ep budget sim) in
  (packets tb = [] \/ total_cycles (removelast (packets tb)) < budget) /\
  b_cycles (build_loop sim start_ep budget) <= budget - total_cycles (packets tb).
Proof.
  cbn. unfold build_loop. rewrite while_loop_iter.
  destruct (iter_run (guest_code sim) (List.length (guest_code sim))
              (build_init sim start_ep budget))
    as (l & Hp & _ & _ & _ & Hc & Hlast).
  cbn [build_init b_packets b_cycles app] in Hp, Hc, Hlast.
  rewrite Hp. split; assumption.
Qed.

Lemma build_stops_reason_aux (sim : VLIWSimulator) (start_ep budget : Z) :
  let b := build_loop sim start_ep budget in
  loop_guard (guest_code sim) b = false /\
  (b_cycles b <= 0 \/
   Z.of_nat (List.length (guest_code sim)) <= b_ep_index b \/
   b_ep_index b < 0).
Proof.
  intro b.
  assert (Hg : loop_guard (guest_code sim) b = false).
  { destruct (loop_guard (guest_code sim) b) eqn:Hg; [|reflexivity].
    exfalso.
    pose proof (iter_fuel_enough (guest_code sim)
                  (List.length (guest_code sim)) 1
                  (build_init sim start_ep budget)) as Hf.
    assert (Hr : b_ep_index (build_init sim start_ep budget) < 0 \/
                 Z.of_nat (List.length (guest_code sim))
                 - b_ep_index (build_init sim start_ep budget)
                 <= Z.of_nat (List.length (guest_code sim))).
    { cbn. destruct (Z.ltb_spec start_ep 0); [now left|right; lia]. }
    specialize (Hf Hr). rewrite Nat.add_1_r in Hf. cbn [Nat.iter nat_rect] in Hf.
    unfold b, build_loop in Hg. rewrite while_loop_iter in Hg.
    change (nat_rect (fun _ => BuildState) (build_init sim start_ep budget)
              (fun _ => loop_step (guest_code sim))
              (List.length (guest_code sim)))
      with (Nat.iter (List.length (guest_code sim)) (loop_step (guest_code sim))
              (build_init sim start_ep budget)) in Hf.
    rewrite (loop_step_guarded _ _ Hg) in Hf.
    destruct (loop_body_guarded _ _ Hg) as (ep & _ & Hbody).
    rewrite Hbody in Hf. apply (f_equal b_ep_index) in Hf. cbn in Hf. lia. }
  split; [exact Hg|].
  unfold loop_guard in Hg.
  destruct (Z.leb_spec 0 (b_ep_index b)); [|lia].
  destruct (Z.ltb_spec (b_ep_index b) (Z.of_nat (List.length (guest_code sim)))); [|lia].
  destruct (Z.ltb_spec 0 (b_cycles b)); [discriminate|lia].
Qed.

(** A build ends for one of the two reasons the loop tests: the budget is
    used up, or the index has left the stream. *)
Theorem build_stops_for_a_reason (sim : VLIWSimulator) (start_ep budget : Z) :
  let b := build_loop sim start_ep budget in
  let tb := fst (translateWithConstraint start_ep budget sim) in
  loop_guard (guest_code sim) b = false /\
  (b_cycles b <= 0 \/
   Z.of_nat (List.length (guest_code sim))
     <= start_ep + Z.of_nat (List.length (packets tb)) \/
   start_ep < 0).
Proof.
  intros b tb.
  destruct (build_stops_reason_aux sim start_ep budget) as [Hg Hr]. fold b in Hg, Hr.
  split; [exact Hg|].
  subst b tb. cbn [translateWithConstraint fst packets].
  unfold build_loop in *. rewrite while_loop_iter in *.
  destruct (iter_run (guest_code sim) (List.length (guest_code sim))
              (build_init sim start_ep budget))
    as (l & Hp & _ & _ & Hi & _).
  cbn [build_init b_packets b_ep_index app] in Hp, Hi.
  rewrite Hp. rewrite Hi in Hr. lia.
Qed.

(** A start index outside the stream (negative, or at or beyond its size)
    gives an empty block ending at start - 1; the tracker is untouched, but
    an id is consumed all the same. *)
Theorem build_out_of_range (sim : VLIWSimulator) (start_ep budget : Z) :
  start_ep < 0 \/ Z.of_nat (List.length (guest_code sim)) <= start_ep ->
  let tb := fst (translateWithConstraint start_ep budget sim) in
  let sim' := snd (translateWithConstraint start_ep budget sim) in
  packets tb = [] /\ end_ep_index tb = Some (start_ep - 1) /\
  saved_contexts sim' = saved_contexts sim /\
  current_tb_id sim' = current_tb_id sim + 1.
Proof.
  intros H. cbn. unfold build_loop.
  rewrite while_loop_iter, iter_stopped.
  - repeat split.
  - unfold loop_guard. cbn [build_init b_ep_index].
    destruct (Z.leb_spec 0 start_ep); [|reflexivity].
    destruct (Z.ltb_spec start_ep (Z.of_nat (List.length (guest_code sim))));
      [lia|reflexivity].
Qed.

Lemma build_out_of_range_witness :
  let sim := parseGuestCode new_simulator in
  packets (fst (translateWithConstraint 13 1000 sim)) = [] /\
  end_ep_index (fst (translateWithConstraint 13 1000 sim)) = Some (13 - 1) /\
  saved_contexts (snd (translateWithConstraint 13 1000 sim)) = saved_contexts sim /\
  current_tb_id (snd (translateWithConstraint 13 1000 sim)) = current_tb_id sim + 1.
Proof.
  intro sim. apply (build_out_of_range sim 13 1000).
  right. vm_compute. discriminate.
Defined.

Lemma build_run (sim : VLIWSimulator) (start_ep budget : Z) :
  let tb := fst (translateWithConstraint start_ep budget sim) in
  packets tb = firstn (List.length (packets tb))
                      (skipn (Z.to_nat start_ep) (guest_code sim)) /\
  end_ep_index tb = Some (start_ep + Z.of_nat (List.length (packets tb)) - 1) /\
  (packets tb = [] \/ (0 <= start_ep /\ 0 < budget)).
Proof.
  cbn. unfold build_loop. rewrite while_loop_iter.
  destruct (iter_run (guest_code sim) (List.length (guest_code sim))
              (build_init sim start_ep budget))
    as (l & Hp & Hg & Hl & Hi & _).
  cbn [build_init b_packets b_ep_index app] in Hp, Hl, Hi.
  rewrite Hp, Hi. split; [exact Hl|]. split; [f_equal; lia|].
  destruct Hg as [Hg|Hg]; [right|now left].
  apply loop_guard_inv in Hg. cbn in Hg. lia.
Qed.

Lemma firstn_app_skipn {A : Type} (n m : nat) (l : list A) :
  firstn n l ++ firstn m (skipn n l) = firstn (n + m) l.
Proof.
  revert l; induction n as [|n IH]; intro l; [reflexivity|].
  destruct l as [|a l]; cbn.
  - now rewrite firstn_nil.
  - now rewrite IH.
Qed.

(** Consecutive builds tile the stream: after a block is pushed,
    [getNextStartEP] returns the index just past it, and a build from there
    continues the same run of the stream, without gap or overlap. *)
Theorem consecutive_builds_tile (sim : VLIWSimulator) (start_ep b1 b2 : Z) :
  0 <= start_ep ->
  let tb1 := fst (translateWithConstraint start_ep b1 sim) in
  let sim1 := build_and_push start_ep b1 sim in
  let next := start_ep + Z.of_nat (List.length (packets tb1)) in
  let tb2 := fst (translateWithConstraint next b2 sim1) in
  getNextStartEP sim1 = Some next /\
  packets tb1 ++ packets tb2
  = firstn (List.length (packets tb1) + List.length (packets tb2))
           (skipn (Z.to_nat start_ep) (guest_code sim)).
Proof.
  intros Hs tb1 sim1 next tb2.
  destruct (build_run sim start_ep b1) as (Hp1 & He1 & _). fold tb1 in Hp1, He1.
  destruct (build_run sim1 next b2) as (Hp2 & _ & _). fold tb2 in Hp2.
  split.
  - unfold getNextStartEP, sim1, build_and_push, push_tb.
    cbn [translation_blocks set_translation_blocks].
    rewrite rev_app_distr. cbn [rev app]. fold tb1. rewrite He1.
    f_equal. unfold next. lia.
  - assert (Hgc : guest_code sim1 = guest_code sim) by reflexivity.
    rewrite Hgc in Hp2.
    replace (Z.to_nat next)
      with (List.length (packets tb1) + Z.to_nat start_ep)%nat in Hp2
      by (unfold next; lia).
    rewrite <- skipn_skipn in Hp2.
    etransitivity; [exact (f_equal2 (@app _) Hp1 Hp2)|].
    apply firstn_app_skipn.
Qed.

Lemma consecutive_builds_tile_witness :
  let sim := parseGuestCode new_simulator in
  getNextStartEP (build_and_push 0 1000 sim) = Some (0 + 6) /\
  List.length (packets (fst (translateWithConstraint 0 1000 sim))
               ++ packets (fst (translateWithConstraint (0 + 6) 5
                                  (build_and_push 0 1000 sim)))) = 11%nat.
Proof.
  intro sim.
  assert (H0 : 0 <= 0) by discriminate.
  destruct (consecutive_builds_tile sim 0 1000 5 H0) as [Hn Hp].
  split; [exact Hn|].
  change (Z.of_nat (List.length (packets (fst (translateWithConstraint 0 1000 sim)))))
    with 6 in Hp.
  rewrite Hp. reflexivity.
Defined.

(** ** The scan and the tracker query as minima *)

Lemma min_delay_fold_attained (l : list Instruction) (m0 : Z) :
  fold_left min_delay_step l m0 = m0 \/
  exists insn, In insn l /\ insn_type insn = BRANCH /\
               delay_slots insn = fold_left min_delay_step l m0 /\
               delay_slots insn < m0.
Proof.
  revert m0; induction l as [|i l IH]; intro m0; simpl; [now left|].
  unfold min_delay_step at 2 4.
  destruct (InsnType_eqb (insn_type i) BRANCH) eqn:Eb; simpl.
  2:{ destruct (IH m0) as [H|(x & Hin & Hb & Hd & Hlt)]; [now left|right].
      exists x. repeat split; auto. }
  apply InsnType_eqb_eq in Eb.
  destruct (Z.ltb_spec (delay_slots i) m0) as [Hlt|Hge].
  - right. destruct (IH (delay_slots i)) as [H|(x & Hin & Hb & Hd & Hlt')].
    + exists i. rewrite H. repeat split; auto.
    + exists x. repeat split; auto. lia.
  - destruct (IH m0) as [H|(x & Hin & Hb & Hd & Hlt)]; [now left|right].
    exists x. repeat split; auto.
Qed.

(** The per-packet scan returns the smallest branch delay of the packet,
    capped at 1000: it is at most 1000 and at most every branch delay, and
    it is either 1000 or the delay of one of the packet's branches. *)
Theorem scan_is_capped_minimum (ep : ExecutePacket) :
  let m := min_current_branch_delay ep in
  m <= 1000 /\
  (forall insn, In insn (instructions ep) -> insn_type insn = BRANCH ->
                m <= delay_slots insn) /\
  (m = 1000 \/
   exists insn, In insn (instructions ep) /\ insn_type insn = BRANCH /\
                delay_slots insn = m /\ m < 1000).
Proof.
  cbn. unfold min_current_branch_delay. split; [|split].
  - apply min_delay_fold_le.
  - intros insn Hin Hb. now apply min_delay_fold_branch.
  - destruct (min_delay_fold_attained (instructions ep) unconstrained)
      as [H|(x & Hin & Hb & Hd & Hlt)]; [now left|right].
    exists x. rewrite <- Hd. repeat split; auto.
Qed.

Lemma scan_is_capped_minimum_witness :
  min_current_branch_delay
    (mkExecutePacket
       [ createInstruction BRANCH "B" ".S1" 5 "LOOP" 7 "[B1]" true;
         createInstruction BRANCH "B" ".S2" 3 "B3" 8 "" true ] 1 6)
  <= 3.
Proof.
  set (b := createInstruction BRANCH "B" ".S2" 3 "B3" 8 "" true).
  set (ep := mkExecutePacket _ 1 6).
  destruct (scan_is_capped_minimum ep) as (_ & H & _).
  apply (H b); [right; left; reflexivity|reflexivity].
Defined.

Lemma min_remaining_attained (ctxs : list SavedContext) (m0 : Z) :
  min_remaining_delay ctxs m0 = m0 \/
  exists ctx, In ctx ctxs /\ remaining_delay ctx = min_remaining_delay ctxs m0.
Proof.
  unfold min_remaining_delay.
  revert m0; induction ctxs as [|c l IH]; intro m0; simpl; [now left|].
  destruct (Z.ltb_spec (remaining_delay c) m0) as [Hlt|Hge].
  - right. destruct (IH (remaining_delay c)) as [H|(x & Hin & Hx)].
    + exists c. rewrite H. auto.
    + exists x. auto.
  - destruct (IH m0) as [H|(x & Hin & Hx)]; [now left|right].
    exists x. auto.
Qed.

(** On a tracker that is not empty the budget query returns the smallest
    recorded delay, expired entries included: the value is the delay of
    some entry and no entry has a smaller one. *)
Theorem tracker_query_minimum (sim : VLIWSimulator) :
  saved_contexts sim <> [] ->
  let r := fst (getCyclesFromPrecedingTB sim) in
  (exists ctx, In ctx (saved_contexts sim) /\ remaining_delay ctx = r) /\
  (forall ctx, In ctx (saved_contexts sim) -> r <= remaining_delay ctx).
Proof.
  intro Hne. unfold getCyclesFromPrecedingTB.
  destruct (saved_contexts sim) as [|c0 l] eqn:E; [contradiction|].
  cbn [fst]. split.
  - destruct (min_remaining_attained (c0 :: l) (remaining_delay c0))
      as [H|(x & Hin & Hx)].
    + exists c0. split; [now left|now rewrite H].
    + exists x. auto.
  - apply min_remaining_delay_le.
Qed.

Lemma tracker_query_minimum_witness :
  let sim := set_saved_contexts
               [mkSavedContext 5 "LOOP" 1; mkSavedContext 0 "B3" 2;
                mkSavedContext 3 "LOOP" 3] new_simulator in
  fst (getCyclesFromPrecedingTB sim) <= remaining_delay (mkSavedContext 0 "B3" 2).
Proof.
  intro sim.
  assert (Hne : saved_contexts sim <> []) by discriminate.
  destruct (tracker_query_minimum sim Hne) as [_ H].
  apply H. right. left. reflexivity.
Defined.

(** A second query in a row changes nothing and never returns a budget
    that is not positive: the first query has removed every expired entry,
    so the second returns 1000 on an emptied tracker and the smallest
    positive delay otherwise. *)
Theorem tracker_second_query (sim : VLIWSimulator) :
  let sim1 := snd (getCyclesFromPrecedingTB sim) in
  snd (getCyclesFromPrecedingTB sim1) = sim1 /\
  0 < fst (getCyclesFromPrecedingTB sim1) /\
  ((saved_contexts sim1 = [] /\ fst (getCyclesFromPrecedingTB sim1) = 1000) \/
   exists ctx, In ctx (saved_contexts sim) /\ 0 < remaining_delay ctx /\
               remaining_delay ctx = fst (getCyclesFromPrecedingTB sim1)).
Proof.
  intro sim1.
  assert (Hpos : forall ctx, In ctx (saved_contexts sim1) -> 0 < remaining_delay ctx).
  { intros ctx Hin. unfold sim1 in Hin. rewrite query_contexts in Hin.
    apply filter_In in Hin as [_ H]. now apply Z.ltb_lt. }
  assert (Hin1 : forall ctx, In ctx (saved_contexts sim1) ->
                             In ctx (saved_contexts sim)).
  { intros ctx Hin. unfold sim1 in Hin. rewrite query_contexts in Hin.
    now apply filter_In in Hin as [? _]. }
  clearbody sim1. unfold getCyclesFromPrecedingTB.
  destruct (saved_contexts sim1) as [|c0 l] eqn:E.
  - split; [reflexivity|]. split; [reflexivity|]. left. split; reflexivity.
  - cbn [fst snd].
    assert (Hatt : exists ctx, In ctx (c0 :: l) /\
                     remaining_delay ctx
                     = min_remaining_delay (c0 :: l) (remaining_delay c0)).
    { destruct (min_remaining_attained (c0 :: l) (remaining_delay c0))
        as [H|(x & Hin & Hx)].
      - exists c0. split; [now left|now rewrite H].
      - exists x. auto. }
    destruct Hatt as (x & Hin & Hx).
    split; [|split].
    + assert (Hd : drop_expired (c0 :: l) = c0 :: l).
      { unfold drop_expired. apply forallb_filter_id. apply forallb_forall.
        intros y Hy. specialize (Hpos y Hy).
        destruct (Z.leb_spec (remaining_delay y) 0); [lia|reflexivity]. }
      rewrite Hd, <- E. now destruct sim1.
    + rewrite <- Hx. now apply Hpos.
    + right. exists x. split; [now apply Hin1|]. split; [now apply Hpos|exact Hx].
Qed.

(** * Block ids *)

Lemma StronglySorted_snoc (l : list Z) (x : Z) :
  StronglySorted Z.lt l -> Forall (fun a => a < x) l ->
  StronglySorted Z.lt (l ++ [x]).
Proof.
  induction l as [|a l IH]; intros Hs Hf; simpl.
  - constructor; constructor.
  - apply StronglySorted_inv in Hs as [Hs Ha].
    inversion Hf as [|? ? Hax Hf']; subst.
    constructor; [now apply IH|].
    apply Forall_app. split; [exact Ha|]. constructor; [exact Hax|constructor].
Qed.

Lemma StronglySorted_lt_NoDup (l : list Z) :
  StronglySorted Z.lt l -> NoDup l.
Proof.
  induction l as [|a l IH]; intro Hs; constructor.
  - apply StronglySorted_inv in Hs as [_ Ha].
    intro Hin. rewrite Forall_forall in Ha. specialize (Ha a Hin). lia.
  - apply IH. now apply StronglySorted_inv in Hs.
Qed.

Lemma ids_ok_at_push (tbs : list TranslationBlock) (next : Z)
    (tb : TranslationBlock) :
  ids_ok_at tbs next -> tb_id tb = next -> ids_ok_at (tbs ++ [tb]) (next + 1).
Proof.
  intros (H0 & Hf & Hs) Hid. unfold ids_ok_at. split; [lia|]. split.
  - apply Forall_app. split.
    + eapply Forall_impl; [|exact Hf]. cbn. intros a Ha. lia.
    + constructor; [lia|constructor].
  - rewrite map_app. cbn. apply StronglySorted_snoc; [exact Hs|].
    rewrite Forall_map. eapply Forall_impl; [|exact Hf]. cbn. intros a Ha. lia.
Qed.

(** The builder followed by [push_back] keeps the block ids in order: every
    stored id lies in [0, current_tb_id), the ids increase along
    [translation_blocks], and so no two blocks share an id. *)
Theorem build_keeps_ids (sim : VLIWSimulator) (start_ep budget : Z) :
  ids_ok sim ->
  ids_ok (build_and_push start_ep budget sim) /\
  NoDup (map tb_id (translation_blocks (build_and_push start_ep budget sim))).
Proof.
  intro H.
  assert (Hok : ids_ok (build_and_push start_ep budget sim)).
  { unfold ids_ok, build_and_push. cbn. now apply ids_ok_at_push. }
  split; [exact Hok|].
  apply StronglySorted_lt_NoDup. apply Hok.
Qed.

Lemma build_keeps_ids_witness :
  NoDup (map tb_id (translation_blocks
                      (build_and_push 6 5
                         (build_and_push 0 1000 (parseGuestCode new_simulator))))).
Proof.
  assert (H0 : ids_ok (parseGuestCode new_simulator)).
  { repeat split; [discriminate|constructor|constructor]. }
  destruct (build_keeps_ids (parseGuestCode new_simulator) 0 1000 H0) as [H1 _].
  apply (build_keeps_ids _ 6 5 H1).
Defined.

(** * Contents of the phase blocks *)

Lemma push_packet_fold (l acc : list ExecutePacket) :
  fold_left push_packet l acc = acc ++ l.
Proof.
  revert acc; induction l as [|ep l IH]; intro acc; simpl.
  - now rewrite app_nil_r.
  - rewrite IH. unfold push_packet. now rewrite <- app_assoc.
Qed.

Lemma kernel_loop_spec (sploop : Z) (rest : list ExecutePacket) :
  forall (i : Z) (acc : list ExecutePacket),
  0 <= i ->
  kernel_loop sploop i rest acc = acc ++ skipn (Z.to_nat (sploop - i)) rest.
Proof.
  induction rest as [|ep rest IH]; intros i acc Hi; simpl.
  - now rewrite skipn_nil, app_nil_r.
  - destruct ((0 <=? sploop) && (i <? sploop)) eqn:E.
    + apply andb_true_iff in E as [E1 E2].
      apply Z.leb_le in E1. apply Z.ltb_lt in E2.
      rewrite IH by lia.
      replace (Z.to_nat (sploop - i)) with (S (Z.to_nat (sploop - (i + 1)))) by lia.
      reflexivity.
    + rewrite IH by lia.
      assert (Hle : sploop - i <= 0).
      { apply andb_false_iff in E as [E|E];
          [apply Z.leb_gt in E|apply Z.ltb_ge in E]; lia. }
      replace (Z.to_nat (sploop - i)) with O by lia.
      replace (Z.to_nat (sploop - (i + 1))) with O by lia.
      cbn. now rewrite <- app_assoc.
Qed.

Lemma prolog_loop_spec (gc : list ExecutePacket) (count : nat) :
  forall (i : nat) (acc : list ExecutePacket),
  prolog_loop gc i count acc = acc ++ firstn count (skipn i gc).
Proof.
  induction count as [|c IH]; intros i acc; simpl.
  - now rewrite app_nil_r.
  - destruct (nth_error gc i) as [ep|] eqn:E.
    + rewrite IH, (skipn_nth_error _ _ _ E). cbn. now rewrite <- app_assoc.
    + rewrite IH. apply nth_error_None in E.
      rewrite !skipn_all2 by lia. now rewrite firstn_nil.
Qed.

(** The single-level machine's blocks.  The state-0 block is a copy of the
    whole stream; the kernel block is the stream from the kernel-start
    index on, and the whole stream again when that index is unset
    (negative); the kernel block is always a suffix of the state-0 block. *)
Theorem single_loop_blocks (sim : VLIWSimulator) :
  let tb0 := fst (translateNormalLoop sim) in
  let tb1 := fst (translateKernelLoop sim) in
  packets tb0 = guest_code sim /\
  packets tb1 = skipn (Z.to_nat (sploop_start_index sim)) (guest_code sim) /\
  (sploop_start_index sim < 0 -> packets tb1 = guest_code sim) /\
  packets tb0
  = firstn (Z.to_nat (sploop_start_index sim)) (guest_code sim) ++ packets tb1.
Proof.
  cbn. rewrite push_packet_fold, kernel_loop_spec by lia. cbn [app].
  rewrite Z.sub_0_r. repeat split.
  - intro H. now replace (Z.to_nat (sploop_start_index sim)) with O by lia.
  - now rewrite firstn_skipn.
Qed.

Lemma single_loop_blocks_witness :
  let sim := with_code [nop_packet 1 1; nop_packet 2 1] in
  packets (fst (translateKernelLoop sim)) = guest_code sim.
Proof.
  intro sim.
  destruct (single_loop_blocks sim) as (_ & _ & H & _).
  apply H. reflexivity.
Defined.

(** The nested machine's prolog and overlap blocks.  The prolog block is
    the stream before the kernel-start index (empty when the index is
    unset, the whole stream when the index is beyond its end); the overlap
    block is the stream from the fixed index 10 on, hence empty for a
    stream of at most ten packets; prolog block and single-level kernel
    block together are the stream. *)
Theorem nested_prolog_overlap_blocks (sim : VLIWSimulator) :
  let tb0 := fst (translateNestedProlog sim) in
  let tb2 := fst (translateNestedOverlap sim) in
  packets tb0 = firstn (Z.to_nat (sploop_start_index sim)) (guest_code sim) /\
  (sploop_start_index sim <= 0 -> packets tb0 = []) /\
  (Z.of_nat (List.length (guest_code sim)) <= sploop_start_index sim ->
   packets tb0 = guest_code sim) /\
  packets tb2 = skipn 10 (guest_code sim) /\
  ((List.length (guest_code sim) <= 10)%nat -> packets tb2 = []) /\
  packets tb0 ++ packets (fst (translateKernelLoop sim)) = guest_code sim.
Proof.
  cbn -[skipn]. rewrite prolog_loop_spec, push_packet_fold, kernel_loop_spec by lia.
  cbn [app]. rewrite Z.sub_0_r. change (skipn 0 (guest_code sim)) with (guest_code sim).
  split; [reflexivity|]. split; [|split; [|split; [reflexivity|split]]].
  - intro H. now replace (Z.to_nat (sploop_start_index sim)) with O by lia.
  - intro H. apply firstn_all2. lia.
  - intro H. now apply skipn_all2.
  - apply firstn_skipn.
Qed.

Lemma nested_prolog_overlap_blocks_witness :
  let sim := parseSoftwarePipelinedLoop new_simulator in
  packets (fst (translateNestedOverlap sim)) = [].
Proof.
  intro sim.
  destruct (nested_prolog_overlap_blocks sim) as (_ & _ & _ & _ & H & _).
  apply H. vm_compute. repeat constructor.
Defined.

Lemma before_first_branch_spec (l : list ExecutePacket) :
  Forall (fun ep => contains BRANCH ep = false /\ In ep l) (before_first_branch l).
Proof.
  induction l as [|ep l IH]; simpl; [constructor|].
  destruct (contains BRANCH ep) eqn:E; constructor.
  - split; [exact E|now left].
  - eapply Forall_impl; [|exact IH]. cbn. intros a [H1 H2]. split; auto.
Qed.

(** The nested kernel block never holds a branch or an SPMASK instruction,
    and each of its packets is a packet of the stream at or after the
    kernel-start index. *)
Theorem nested_kernel_clean (sim : VLIWSimulator) :
  Forall (fun ep =>
            contains BRANCH ep = false /\ contains SPMASK ep = false /\
            In ep (skipn (Z.to_nat (sploop_start_index sim)) (guest_code sim)))
         (packets (fst (translateNestedInner sim))).
Proof.
  cbn. destruct (sploop_start_index sim <? 0); [constructor|].
  rewrite inner_loop_spec. cbn [app].
  apply Forall_forall. intros ep Hin. apply filter_In in Hin as [Hin Hm].
  pose proof (before_first_branch_spec
                (skipn (Z.to_nat (sploop_start_index sim)) (guest_code sim))) as H.
  rewrite Forall_forall in H. destruct (H ep Hin) as [Hb Hi].
  apply negb_true_iff in Hm. repeat split; assumption.
Qed.

(** * Further properties of the reorderer *)

Lemma rebuild_from_all_stores (u : Indeterminate) (dss : list DeferredStore)
    (k : nat) :
  Forall (fun insn => insn_type insn = STORE) (rebuild_from u k dss).
Proof.
  revert k; induction dss as [|ds dss IH]; intro k; simpl; constructor.
  - reflexivity.
  - apply IH.
Qed.

(** In a reordered packet no store comes before a non-store: the packet
    splits into a front part without stores and a rear part of stores
    only, so every load is translated before every store. *)
Theorem reorder_stores_at_end (u : Indeterminate) (ep : ExecutePacket) :
  let out := instructions (reorder u ep) in
  let n := List.length (filter non_store (instructions ep)) in
  Forall (fun insn => insn_type insn <> STORE) (firstn n out) /\
  Forall (fun insn => insn_type insn = STORE) (skipn n out) /\
  (forall i j a b, nth_error out i = Some a -> nth_error out j = Some b ->
                   insn_type a = STORE -> insn_type b <> STORE -> (j < i)%nat).
Proof.
  intros out n. subst out. rewrite reorder_instructions.
  set (N := filter non_store (instructions ep)) in *.
  set (R := rebuild_from u 0 (map to_deferred (filter is_store (instructions ep)))).
  assert (HN : Forall (fun insn => insn_type insn <> STORE) N).
  { apply Forall_forall. intros x Hx. apply filter_In in Hx as [_ Hx].
    unfold non_store, is_store in Hx. apply negb_true_iff in Hx.
    intro H. apply InsnType_eqb_eq in H. congruence. }
  assert (HR : Forall (fun insn => insn_type insn = STORE) R)
    by apply rebuild_from_all_stores.
  subst n. split; [|split].
  - rewrite firstn_app, Nat.sub_diag, firstn_all. cbn. now rewrite app_nil_r.
  - rewrite skipn_app, Nat.sub_diag, skipn_all. exact HR.
  - intros i j a b Hi Hj Ha Hb.
    rewrite Forall_forall in HN, HR.
    destruct (Nat.lt_ge_cases i (List.length N)) as [Hlt|Hge].
    + rewrite nth_error_app1 in Hi by exact Hlt.
      destruct (HN a (nth_error_In _ _ Hi) Ha).
    + destruct (Nat.lt_ge_cases j (List.length N)) as [Hlt'|Hge']; [lia|].
      rewrite nth_error_app2 in Hj by exact Hge'.
      destruct (Hb (HR b (nth_error_In _ _ Hj))).
Qed.

Lemma reorder_stores_at_end_witness :
  let out := instructions (reorder (fun _ => (0, false)) (parallel_ep 0 0)) in
  exists a b,
    nth_error out 1 = Some a /\ nth_error out 0 = Some b /\
    insn_type a = STORE /\ insn_type b <> STORE /\ (0 < 1)%nat.
Proof.
  intro out.
  destruct (reorder_stores_at_end (fun _ => (0, false)) (parallel_ep 0 0))
    as (_ & _ & H).
  eexists. eexists.
  split; [reflexivity|]. split; [reflexivity|].
  split; [reflexivity|]. split; [discriminate|].
  eapply (H 1%nat 0%nat); [reflexivity|reflexivity|reflexivity|discriminate].
Defined.

Lemma filter_none {A : Type} (f : A -> bool) (l : list A) :
  (forall x, In x l -> f x = false) -> filter f l = [].
Proof.
  induction l as [|a l IH]; intro H; simpl; [reflexivity|].
  rewrite (H a (or_introl eq_refl)). apply IH. intros x Hx. apply H. now right.
Qed.

(** A packet without a store is returned unchanged. *)
Theorem reorder_without_stores (u : Indeterminate) (ep : ExecutePacket) :
  (forall insn, In insn (instructions ep) -> insn_type insn <> STORE) ->
  reorder u ep = ep.
Proof.
  intro H.
  pose proof (reorder_instructions u ep) as Hi.
  destruct (reorder_cycles u ep) as [Hc Hn].
  assert (HN : filter non_store (instructions ep) = instructions ep).
  { apply forallb_filter_id. apply forallb_forall. intros x Hx.
    unfold non_store, is_store. apply negb_true_iff.
    destruct (InsnType_eqb (insn_type x) STORE) eqn:E; [|reflexivity].
    apply InsnType_eqb_eq in E. destruct (H x Hx E). }
  assert (HS : filter is_store (instructions ep) = []).
  { apply filter_none. intros x Hx. unfold is_store.
    destruct (InsnType_eqb (insn_type x) STORE) eqn:E; [|reflexivity].
    apply InsnType_eqb_eq in E. destruct (H x Hx E). }
  rewrite HN, HS in Hi. cbn in Hi. rewrite app_nil_r in Hi.
  destruct (reorder u ep) as [i c n], ep as [i' c' n']. cbn in *. congruence.
Qed.

Lemma reorder_without_stores_witness :
  reorder (fun _ => (7, true))
          (mkExecutePacket
             [ createInstruction LOAD "LDW" ".D1" 4 "*A4++, A0" 7 "" false;
               createInstruction ARITHMETIC "MV" ".L2X" 0 "A0, B0" 9 "" true ] 1 3)
  = mkExecutePacket
      [ createInstruction LOAD "LDW" ".D1" 4 "*A4++, A0" 7 "" false;
        createInstruction ARITHMETIC "MV" ".L2X" 0 "A0, B0" 9 "" true ] 1 3.
Proof.
  apply reorder_without_stores.
  intros insn Hin. cbn in Hin.
  destruct Hin as [<-|[<-|[]]]; discriminate.
Defined.

(** A call replaces the simulator's list of deferred stores by the records
    of the stores of this packet, in order, whatever the list held before;
    no other member of the simulator changes. *)
Theorem deferred_stores_replaced (u : Indeterminate) (ep : ExecutePacket)
    (sim : VLIWSimulator) :
  snd (translateEPWithDeferredStores u ep sim)
  = set_deferred_stores
      (map to_deferred (filter is_store (instructions ep))) sim /\
  List.length (deferred_stores (snd (translateEPWithDeferredStores u ep sim)))
  = List.length (filter is_store (instructions ep)).
Proof.
  unfold translateEPWithDeferredStores.
  rewrite defer_fold. cbn [app]. rewrite emit_fold. cbn.
  split; [reflexivity|apply length_map].
Qed.

(** * Further properties of the phase machines *)

Lemma single_call_blocks (sim : VLIWSimulator) :
  translation_blocks (translateSoftwarePipelinedLoop sim)
    = translation_blocks sim ++ single_new_blocks sim /\
  current_tb_id (translateSoftwarePipelinedLoop sim)
    = current_tb_id sim + Z.of_nat (List.length (single_new_blocks sim)) /\
  guest_code (translateSoftwarePipelinedLoop sim) = guest_code sim.
Proof.
  unfold translateSoftwarePipelinedLoop, single_new_blocks.
  destruct (state sim =? 0).
  - cbn. destruct (0 <? ILC sim - 1); cbn; rewrite <- ?app_assoc;
      repeat split; lia.
  - rewrite app_nil_r. cbn. repeat split; lia.
Qed.

Lemma nested_call_blocks (sim : VLIWSimulator) :
  translation_blocks (translateNestedLoop sim)
    = translation_blocks sim ++ nested_new_blocks sim /\
  current_tb_id (translateNestedLoop sim)
    = current_tb_id sim + Z.of_nat (List.length (nested_new_blocks sim)) /\
  guest_code (translateNestedLoop sim) = guest_code sim.
Proof.
  unfold translateNestedLoop, nested_new_blocks, reload_and_advance.
  destruct (state sim =? 0).
  - cbn. destruct (0 <? ILC sim - 1); cbn;
      destruct (0 <? A1 sim - 1); cbn; rewrite <- ?app_assoc;
      repeat split; lia.
  - destruct (state sim =? 2).
    + destruct (find_tb_id "NESTED_STATE_2" (translation_blocks sim) =? -1);
        cbn -[find_tb_id];
        repeat match goal with
               | |- context [if ?b then _ else _] => destruct b
               end; cbn -[find_tb_id]; rewrite ?app_nil_r;
        repeat split; lia.
    + rewrite app_nil_r. cbn. repeat split; lia.
Qed.

Lemma ids_ok_at_append (news : list TranslationBlock) :
  forall (tbs : list TranslationBlock) (next : Z),
  ids_ok_at tbs next ->
  (forall i tb, nth_error news i = Some tb -> tb_id tb = next + Z.of_nat i) ->
  ids_ok_at (tbs ++ news) (next + Z.of_nat (List.length news)).
Proof.
  induction news as [|tb news IH]; intros tbs next H Hid.
  - rewrite app_nil_r. cbn. now rewrite Z.add_0_r.
  - replace (tbs ++ tb :: news) with ((tbs ++ [tb]) ++ news)
      by now rewrite <- app_assoc.
    replace (next + Z.of_nat (List.length (tb :: news)))
      with (next + 1 + Z.of_nat (List.length news)) by (cbn [List.length]; lia).
    apply IH.
    + apply ids_ok_at_push; [exact H|]. rewrite (Hid O tb eq_refl). cbn. lia.
    + intros i x Hx. rewrite (Hid (S i) x Hx). lia.
Qed.

Ltac nth_cases Hx :=
  repeat match type of Hx with
         | nth_error _ ?i = Some _ => is_var i; destruct i; cbn in Hx
         end;
  try discriminate Hx.

Lemma ids_ok_single (sim : VLIWSimulator) :
  ids_ok sim -> ids_ok (translateSoftwarePipelinedLoop sim).
Proof.
  intro H. unfold ids_ok.
  destruct (single_call_blocks sim) as (-> & -> & _).
  apply ids_ok_at_append; [exact H|].
  unfold single_new_blocks.
  destruct (state sim =? 0); [|intros i tb Hx; nth_cases Hx].
  destruct (0 <? ILC sim - 1); intros i tb Hx; nth_cases Hx;
    injection Hx as <-; cbn; lia.
Qed.

Lemma ids_ok_nested (sim : VLIWSimulator) :
  ids_ok sim -> ids_ok (translateNestedLoop sim).
Proof.
  intro H. unfold ids_ok.
  destruct (nested_call_blocks sim) as (-> & -> & _).
  apply ids_ok_at_append; [exact H|].
  unfold nested_new_blocks.
  destruct (state sim =? 0).
  - destruct (0 <? ILC sim - 1); intros i tb Hx; nth_cases Hx;
      injection Hx as <-; cbn; lia.
  - destruct (state sim =? 2); [|intros i tb Hx; nth_cases Hx].
    destruct (find_tb_id "NESTED_STATE_2" (translation_blocks sim) =? -1);
      intros i tb Hx; nth_cases Hx.
    injection Hx as <-. cbn. lia.
Qed.

(** Both phase machines keep the block ids in order, however often and in
    whatever order they are called: every stored id lies in
    [0, current_tb_id), the ids increase along [translation_blocks], and no
    two blocks share an id, even when a label is translated again. *)
Theorem phase_machines_keep_ids (sim : VLIWSimulator) :
  ids_ok sim ->
  ids_ok (translateSoftwarePipelinedLoop sim) /\
  ids_ok (translateNestedLoop sim) /\
  NoDup (map tb_id (translation_blocks (translateSoftwarePipelinedLoop sim))) /\
  NoDup (map tb_id (translation_blocks (translateNestedLoop sim))).
Proof.
  intro H.
  pose proof (ids_ok_single sim H) as H1.
  pose proof (ids_ok_nested sim H) as H2.
  repeat split; try apply H1; try apply H2;
    apply StronglySorted_lt_NoDup; [apply H1|apply H2].
Qed.

Lemma phase_machines_keep_ids_witness :
  NoDup (map tb_id (translation_blocks
           (translateNestedLoop
              (translateNestedLoop (nested_setup new_simulator))))).
Proof.
  assert (H0 : ids_ok (nested_setup new_simulator)).
  { repeat split; [discriminate|constructor|constructor]. }
  destruct (phase_machines_keep_ids (nested_setup new_simulator) H0)
    as (_ & H1 & _).
  apply (phase_machines_keep_ids _ H1).
Defined.

Lemma count_label_app (label : string) (sim : VLIWSimulator)
    (tbs news : list TranslationBlock) :
  List.length (filter (fun tb => String.eqb (start_label tb) label) (tbs ++ news))
  = (List.length (filter (fun tb => String.eqb (start_label tb) label) tbs)
     + List.length (filter (fun tb => String.eqb (start_label tb) label) news))%nat.
Proof. now rewrite filter_app, length_app. Qed.

(** The lookup loop against the count of blocks with the label: a found id
    means a block is there, and with ids that are not negative the
    sentinel -1 means none is. *)
Lemma find_tb_id_count (label : string) (tbs : list TranslationBlock) :
  Forall (fun tb => 0 <= tb_id tb) tbs ->
  (find_tb_id label tbs = -1 <->
   List.length (filter (fun tb => String.eqb (start_label tb) label) tbs) = O).
Proof.
  unfold find_tb_id. induction tbs as [|tb tbs IH]; intro Hf; simpl.
  - split; reflexivity.
  - inversion Hf as [|? ? Hid Hf']; subst.
    destruct (String.eqb (start_label tb) label); simpl.
    + split; [lia|discriminate].
    + now apply IH.
Qed.

Lemma nested_overlap_count (sim : VLIWSimulator) :
  ids_ok sim ->
  (count_label "NESTED_STATE_2" sim <= 1)%nat ->
  (count_label "NESTED_STATE_2" (translateNestedLoop sim) <= 1)%nat /\
  ((1 <= count_label "NESTED_STATE_2" sim)%nat ->
   count_label "NESTED_STATE_2" (translateNestedLoop sim)
   = count_label "NESTED_STATE_2" sim).
Proof.
  intros (_ & Hf & _) Hc. unfold count_label in *.
  destruct (nested_call_blocks sim) as (-> & _ & _).
  rewrite count_label_app by exact sim.
  assert (Hfind := find_tb_id_count "NESTED_STATE_2" (translation_blocks sim)).
  assert (Hf0 : Forall (fun tb => 0 <= tb_id tb) (translation_blocks sim)).
  { eapply Forall_impl; [|exact Hf]. cbn. intros a Ha. lia. }
  specialize (Hfind Hf0).
  unfold nested_new_blocks.
  destruct (state sim =? 0).
  - destruct (0 <? ILC sim - 1); cbn; split; lia.
  - destruct (state sim =? 2); [|cbn; split; lia].
    destruct (Z.eqb_spec (find_tb_id "NESTED_STATE_2" (translation_blocks sim)) (-1))
      as [E|E]; cbn.
    + apply Hfind in E. split; lia.
    + split; lia.
Qed.

(** The overlap label is translated at most once, whatever the sequence of
    calls: starting from a simulator with well-formed ids and at most one
    overlap block, any number of calls of the nested machine leaves at most
    one block labelled NESTED_STATE_2, and once one exists a call never
    adds another. *)
Theorem overlap_translated_at_most_once (sim : VLIWSimulator) (n : nat) :
  ids_ok sim ->
  (count_label "NESTED_STATE_2" sim <= 1)%nat ->
  (count_label "NESTED_STATE_2" (Nat.iter n translateNestedLoop sim) <= 1)%nat /\
  ((1 <= count_label "NESTED_STATE_2" sim)%nat ->
   count_label "NESTED_STATE_2" (Nat.iter n translateNestedLoop sim)
   = count_label "NESTED_STATE_2" sim).
Proof.
  intros Hid Hc.
  assert (H : ids_ok (Nat.iter n translateNestedLoop sim) /\
              (count_label "NESTED_STATE_2" (Nat.iter n translateNestedLoop sim)
               <= 1)%nat /\
              ((1 <= count_label "NESTED_STATE_2" sim)%nat ->
               count_label "NESTED_STATE_2" (Nat.iter n translateNestedLoop sim)
               = count_label "NESTED_STATE_2" sim)).
  { induction n as [|n (IH1 & IH2 & IH3)];
      [split; [exact Hid|split; [exact Hc|intro; reflexivity]]|].
    rewrite Nat.iter_succ.
    destruct (nested_overlap_count _ IH1 IH2) as [H1 H2].
    split; [now apply ids_ok_nested|]. split; [exact H1|].
    intro H. rewrite H2; [now apply IH3|]. rewrite IH3; assumption. }
  split; apply H.
Qed.

Lemma overlap_translated_at_most_once_witness :
  (count_label "NESTED_STATE_2"
     (Nat.iter 5 translateNestedLoop (nested_setup new_simulator)) <= 1)%nat.
Proof.
  assert (H0 : ids_ok (nested_setup new_simulator)).
  { repeat split; [discriminate|constructor|constructor]. }
  assert (Hc : (count_label "NESTED_STATE_2" (nested_setup new_simulator) <= 1)%nat).
  { vm_compute. repeat constructor. }
  apply (overlap_translated_at_most_once (nested_setup new_simulator) 5 H0 Hc).
Defined.

(** One call of the single-level machine in state 0, for every loop count.
    With ILC at least 2 it appends the state-0 block (the whole stream) and
    the kernel block (the stream from the kernel-start index), executes
    the first once and the second ILC - 1 times, and ends with ILC = 0;
    with ILC at most 1 it appends and executes the state-0 block only and
    leaves ILC - 1.  Either way it returns in state 0 and takes the next
    ids in order. *)
Theorem single_loop_run (sim : VLIWSimulator) :
  state sim = 0 ->
  let id := current_tb_id sim in
  let s' := translateSoftwarePipelinedLoop sim in
  let tb0 := mkTranslationBlock (guest_code sim) id None "LOOP_STATE_0" None None in
  let tb1 := mkTranslationBlock
               (skipn (Z.to_nat (sploop_start_index sim)) (guest_code sim))
               (id + 1) None "LOOP_STATE_1" None None in
  state s' = 0 /\
  (2 <= ILC sim ->
   translation_blocks s' = translation_blocks sim ++ [tb0; tb1] /\
   trace s' = trace sim ++ [Generated id; Executing id; Generated (id + 1)]
                        ++ repeat (Executing (id + 1)) (Z.to_nat (ILC sim - 1)) /\
   ILC s' = 0 /\ current_tb_id s' = id + 2) /\
  (ILC sim <= 1 ->
   translation_blocks s' = translation_blocks sim ++ [tb0] /\
   trace s' = trace sim ++ [Generated id; Executing id] /\
   ILC s' = ILC sim - 1 /\ current_tb_id s' = id + 1).
Proof.
  intros Hs id s' tb0 tb1. subst s' tb0 tb1 id.
  unfold translateSoftwarePipelinedLoop, translateNormalLoop, translateKernelLoop,
         labelled_tb.
  rewrite Hs. cbn [Z.eqb]. cbv zeta. cbn -[kernel_loop fold_left Z.sub Z.add Z.ltb].
  rewrite push_packet_fold. cbn [app].
  split; [destruct (0 <? ILC sim - 1); reflexivity|]. split.
  - intro H. assert (E : (0 <? ILC sim - 1) = true) by (apply Z.ltb_lt; lia).
    rewrite E. cbn -[kernel_loop Z.sub Z.add].
    rewrite kernel_loop_spec by lia. cbn [app]. rewrite Z.sub_0_r.
    rewrite <- !app_assoc. cbn [app]. unfold execute_times.
    repeat split; try reflexivity; lia.
  - intro H. assert (E : (0 <? ILC sim - 1) = false) by (apply Z.ltb_ge; lia).
    rewrite E. cbn. repeat split; reflexivity.
Qed.

Lemma single_loop_run_witness :
  let sim := set_state 0 (set_ILC 8 (parseSoftwarePipelinedLoop new_simulator)) in
  trace (translateSoftwarePipelinedLoop sim)
  = [Generated 0; Executing 0; Generated 1] ++ repeat (Executing 1) 7 /\
  ILC (translateSoftwarePipelinedLoop sim) = 0.
Proof.
  intro sim.
  destruct (single_loop_run sim eq_refl) as (_ & H & _).
  destruct H as (_ & Ht & Hi & _); [vm_compute; discriminate|].
  split; [exact Ht|exact Hi].
Defined.

(** One call of the nested machine in state 0, for every loop count.  With
    ILC at least 2 it appends the prolog block (the stream before the
    kernel-start index) and the kernel block, executes the first once and
    the second ILC - 1 times; with ILC at most 1 it appends and executes the
    prolog block only.  Either way it reloads ILC from RILC and decrements
    A1. *)
Theorem nested_first_call (sim : VLIWSimulator) :
  state sim = 0 ->
  let id := current_tb_id sim in
  let s' := translateNestedLoop sim in
  let tb0 := mkTranslationBlock
               (firstn (Z.to_nat (sploop_start_index sim)) (guest_code sim))
               id None "NESTED_STATE_0" None None in
  let tb1 := mkTranslationBlock (packets (fst (translateNestedInner sim)))
               (id + 1) None "NESTED_STATE_1" None None in
  ILC s' = RILC sim /\ A1 s' = A1 sim - 1 /\
  (2 <= ILC sim ->
   translation_blocks s' = translation_blocks sim ++ [tb0; tb1] /\
   trace s' = trace sim ++ [Generated id; Executing id; Generated (id + 1)]
                        ++ repeat (Executing (id + 1)) (Z.to_nat (ILC sim - 1))) /\
  (ILC sim <= 1 ->
   translation_blocks s' = translation_blocks sim ++ [tb0] /\
   trace s' = trace sim ++ [Generated id; Executing id]).
Proof.
  intros Hs id s' tb0 tb1.
  destruct (nested_call_counters sim (or_introl Hs)) as (Hi & _ & Ha & _).
  split; [exact Hi|]. split; [exact Ha|].
  subst s' tb0 tb1 id.
  unfold translateNestedLoop, translateNestedProlog, translateNestedInner,
         labelled_tb, reload_and_advance.
  rewrite Hs. cbn [Z.eqb]. cbv zeta.
  cbn -[prolog_loop inner_loop Z.sub Z.add Z.ltb].
  rewrite prolog_loop_spec. cbn [app skipn].
  split.
  - intro H. assert (E : (0 <? ILC sim - 1) = true) by (apply Z.ltb_lt; lia).
    rewrite E. cbn -[inner_loop Z.sub Z.add Z.ltb].
    destruct (0 <? A1 sim - 1); cbn -[inner_loop Z.sub Z.add Z.ltb];
      rewrite <- !app_assoc; split; reflexivity.
  - intro H. assert (E : (0 <? ILC sim - 1) = false) by (apply Z.ltb_ge; lia).
    rewrite E. destruct (0 <? A1 sim - 1); cbn; split; reflexivity.
Qed.

Lemma nested_first_call_witness :
  let sim := nested_setup new_simulator in
  trace (translateNestedLoop sim)
  = [Generated 0; Executing 0; Generated 1] ++ repeat (Executing 1) 6 /\
  A1 (translateNestedLoop sim) = 3 - 1.
Proof.
  intro sim.
  destruct (nested_first_call sim eq_refl) as (_ & Ha & H & _).
  destruct H as (_ & Ht); [vm_compute; discriminate|].
  split; [exact Ht|exact Ha].
Defined.

(** One call of the nested machine in state 2 when the overlap, prolog and
    kernel blocks are all present: nothing is translated, no id is taken,
    and the call only replays the three blocks - overlap once, prolog once,
    kernel ILC - 1 times - before reloading ILC and decrementing A1. *)
Theorem nested_overlap_pass_replays (sim : VLIWSimulator) :
  state sim = 2 ->
  let id2 := find_tb_id "NESTED_STATE_2" (translation_blocks sim) in
  let id0 := find_tb_id "NESTED_STATE_0" (translation_blocks sim) in
  let id1 := find_tb_id "NESTED_STATE_1" (translation_blocks sim) in
  id2 <> -1 -> id0 <> -1 -> id1 <> -1 ->
  let s' := translateNestedLoop sim in
  translation_blocks s' = translation_blocks sim /\
  current_tb_id s' = current_tb_id sim /\
  trace s' = trace sim ++ [Executing id2; Executing id0]
                       ++ repeat (Executing id1) (Z.to_nat (ILC sim - 1)) /\
  ILC s' = RILC sim /\ A1 s' = A1 sim - 1.
Proof.
  intros Hs id2 id0 id1 H2 H0 H1 s'.
  destruct (nested_call_counters sim (or_intror Hs)) as (Hi & _ & Ha & _).
  subst s' id2 id0 id1.
  apply Z.eqb_neq in H2, H0, H1.
  unfold translateNestedLoop, reload_and_advance.
  rewrite Hs. cbn [Z.eqb Pos.eqb]. rewrite H2. cbv zeta.
  cbn -[find_tb_id Z.sub Z.ltb]. rewrite H0.
  cbn -[find_tb_id Z.sub Z.ltb].
  destruct (Z.ltb_spec 0 (ILC sim - 1)) as [Hlt|Hge].
  - cbn -[find_tb_id Z.sub Z.ltb]. rewrite H1.
    cbn -[find_tb_id Z.sub Z.ltb].
    destruct (0 <? A1 sim - 1); cbn -[find_tb_id Z.sub Z.ltb];
      rewrite <- ?app_assoc; unfold execute_times; repeat split; reflexivity.
  - replace (Z.to_nat (ILC sim - 1)) with O by lia.
    cbn -[find_tb_id Z.sub Z.ltb].
    destruct (0 <? A1 sim - 1); cbn -[find_tb_id Z.sub Z.ltb];
      rewrite <- ?app_assoc; repeat split; reflexivity.
Qed.

Lemma nested_overlap_pass_replays_witness :
  let sim := translateNestedLoop
               (translateNestedLoop (nested_setup new_simulator)) in
  translation_blocks (translateNestedLoop sim) = translation_blocks sim /\
  trace (translateNestedLoop sim)
  = trace sim ++ [Executing 2; Executing 0] ++ repeat (Executing 1) 6.
Proof.
  intro sim.
  destruct (nested_overlap_pass_replays sim eq_refl)
    as (Hb & _ & Ht & _); try (vm_compute; discriminate).
  split; [exact Hb|exact Ht].
Defined.

(** States of the machines.  The single-level machine does nothing unless
    it is in state 0 and always returns in the state it was called in.
    The nested machine does nothing unless it is in state 0 or 2; from
    those it ends in state 2 when A1 is still positive after the decrement
    and in state 0 otherwise, so it never rests in state 1, and a
    simulator left in any other state is never moved by a call. *)
Theorem phase_machine_states (sim : VLIWSimulator) :
  state (translateSoftwarePipelinedLoop sim) = state sim /\
  (state sim <> 0 -> translateSoftwarePipelinedLoop sim = sim) /\
  (state sim <> 0 -> state sim <> 2 -> translateNestedLoop sim = sim) /\
  (state sim = 0 \/ state sim = 2 ->
   state (translateNestedLoop sim) = (if 0 <? A1 sim - 1 then 2 else 0)) /\
  (state sim <> 1 -> state (translateNestedLoop sim) <> 1).
Proof.
  assert (Hidle : state sim <> 0 -> state sim <> 2 -> translateNestedLoop sim = sim).
  { intros H0 H2. unfold translateNestedLoop.
    apply Z.eqb_neq in H0, H2. now rewrite H0, H2. }
  split; [|split; [|split; [exact Hidle|split]]].
  - destruct (Z.eq_dec (state sim) 0) as [E|E].
    + destruct (single_call_counters sim E) as (_ & _ & _ & H). congruence.
    + unfold translateSoftwarePipelinedLoop. apply Z.eqb_neq in E. now rewrite E.
  - intro H. unfold translateSoftwarePipelinedLoop.
    apply Z.eqb_neq in H. now rewrite H.
  - intro H. now destruct (nested_call_counters sim H) as (_ & _ & _ & ?).
  - intro H1.
    destruct (Z.eq_dec (state sim) 0) as [E0|E0];
      [|destruct (Z.eq_dec (state sim) 2) as [E2|E2]].
    + destruct (nested_call_counters sim (or_introl E0)) as (_ & _ & _ & ->).
      destruct (0 <? A1 sim - 1); discriminate.
    + destruct (nested_call_counters sim (or_intror E2)) as (_ & _ & _ & ->).
      destruct (0 <? A1 sim - 1); discriminate.
    + now rewrite Hidle.
Qed.

Lemma phase_machine_states_witness :
  translateNestedLoop (set_state 1 (nested_setup new_simulator))
  = set_state 1 (nested_setup new_simulator).
Proof.
  destruct (phase_machine_states (set_state 1 (nested_setup new_simulator)))
    as (_ & _ & H & _).
  apply H; discriminate.
Defined.

Lemma nested_outer_progress (n : nat) :
  forall (k : Z) (s : VLIWSimulator),
  state s = 0 \/ state s = 2 -> 1 <= A1 s ->
  A1 (nested_outer n k s) = Z.max 0 (A1 s - Z.of_nat n) /\
  (A1 s <= Z.of_nat n ->
   state (nested_outer n k s) = 0 /\ nested_done (nested_outer n k s) = true) /\
  (Z.of_nat n < A1 s -> nested_done (nested_outer n k s) = false) /\
  ((1 <= n)%nat -> ILC (nested_outer n k s) = RILC s) /\
  RILC (nested_outer n k s) = RILC s.
Proof.
  induction n as [|n IH]; intros k s Hs Ha.
  - cbn [nested_outer]. split; [lia|]. split; [lia|]. split; [|split; [lia|reflexivity]].
    intros _. unfold nested_done.
    destruct (Z.eqb_spec (A1 s) 0); [lia|apply andb_false_r].
  - rewrite nested_outer_unfold. cbv zeta.
    set (s1 := translateNestedLoop (log [OuterIteration k] s)).
    destruct (nested_call_counters (log [OuterIteration k] s) Hs)
      as (Hi & Hr & Ha1 & Hst).
    fold s1 in Hi, Hr, Ha1, Hst. cbn [log ILC RILC A1 state] in Hi, Hr, Ha1, Hst.
    destruct (Z.ltb_spec 0 (A1 s - 1)) as [Hlt|Hge].
    + assert (Hd : nested_done s1 = false).
      { unfold nested_done. rewrite Hst. reflexivity. }
      rewrite Hd.
      destruct (IH (k + 1) s1 (or_intror Hst)) as (I1 & I2 & I3 & I4 & I5); [lia|].
      rewrite I1, I5, Ha1, Hr.
      split; [lia|]. split; [intro; apply I2; lia|].
      split; [intro; apply I3; lia|]. split; [|reflexivity].
      intros _. destruct n as [|n']; [exact Hi|].
      rewrite I4 by lia. exact Hr.
    + assert (Hd : nested_done s1 = true).
      { unfold nested_done. rewrite Hst, Ha1.
        replace (A1 s - 1) with 0 by lia. reflexivity. }
      rewrite Hd. rewrite Ha1, Hst, Hi, Hr.
      split; [lia|]. split; [intros _; split; [reflexivity|exact Hd]|].
      split; [lia|]. split; reflexivity.
Qed.

(** The driver's loop over outer iterations, for every iteration bound and
    every A1 of at least 1: after [n] iterations A1 has gone down by [n]
    and stops at 0, the completion test holds exactly when the bound has
    reached A1 (so the loop makes A1 calls and no more), the machine is
    then in state 0, and ILC has been reloaded from RILC. *)
Theorem nested_driver_completes (n : nat) (k : Z) (sim : VLIWSimulator) :
  state sim = 0 \/ state sim = 2 -> 1 <= A1 sim ->
  let sf := nested_outer n k sim in
  A1 sf = Z.max 0 (A1 sim - Z.of_nat n) /\
  (A1 sim <= Z.of_nat n -> state sf = 0 /\ nested_done sf = true) /\
  (Z.of_nat n < A1 sim -> nested_done sf = false) /\
  ((1 <= n)%nat -> ILC sf = RILC sim) /\
  (A1 sim <= Z.of_nat n -> sf = nested_outer (Z.to_nat (A1 sim)) k sim).
Proof.
  intros Hs Ha sf. subst sf.
  destruct (nested_outer_progress n k sim Hs Ha) as (H1 & H2 & H3 & H4 & _).
  repeat split; try assumption; try (now apply H2).
  intro Hle. clear H1 H2 H3 H4.
  remember (Z.to_nat (A1 sim)) as a eqn:Ea.
  assert (Hn : (a <= n)%nat) by lia.
  assert (Ha' : A1 sim = Z.of_nat a) by lia.
  clear Ea Hle. revert k sim n Hs Ha Ha' Hn.
  induction a as [|a IH]; intros k sim n Hs Ha Ha' Hn; [lia|].
  destruct n as [|n]; [lia|].
  rewrite !nested_outer_unfold. cbv zeta.
  destruct (nested_call_counters (log [OuterIteration k] sim) Hs)
    as (_ & _ & Ha1 & Hst).
  cbn [log A1 state] in Ha1, Hst.
  destruct (nested_done (translateNestedLoop (log [OuterIteration k] sim))) eqn:Hd;
    [reflexivity|].
  destruct (Z.ltb_spec 0 (A1 sim - 1)) as [Hlt|Hge].
  - apply IH; [now right|lia|lia|lia].
  - unfold nested_done in Hd. rewrite Hst, Ha1 in Hd.
    replace (A1 sim - 1) with 0 in Hd by lia. discriminate.
Qed.

Lemma nested_driver_completes_witness :
  let sim := nested_setup new_simulator in
  A1 (nested_outer 5 1 sim) = Z.max 0 (3 - 5) /\
  nested_outer 5 1 sim = nested_outer 3 1 sim.
Proof.
  intro sim.
  assert (Hs : state sim = 0 \/ state sim = 2) by (left; reflexivity).
  assert (Ha : 1 <= A1 sim) by (vm_compute; discriminate).
  destruct (nested_driver_completes 5 1 sim Hs Ha) as (H1 & _ & _ & _ & H5).
  split; [exact H1|].
  apply H5. vm_compute. discriminate.
Defined.

(** * Builds without a clamping branch *)

Lemma iter_unclamped (gc : list ExecutePacket) :
  (forall ep, In ep gc -> far_branches ep) ->
  forall (n : nat) (s : BuildState),
  exists l,
    b_packets (Nat.iter n (loop_step gc) s) = b_packets s ++ l /\
    b_cycles (Nat.iter n (loop_step gc) s) = b_cycles s - total_cycles l /\
    b_ep_index (Nat.iter n (loop_step gc) s)
      = b_ep_index s + Z.of_nat (List.length l).
Proof.
  intros Hfar n; induction n as [|n IH]; intro s.
  - exists []. cbn. rewrite app_nil_r. repeat split; lia.
  - rewrite Nat.iter_succ_r.
    destruct (loop_guard gc s) eqn:Hg.
    + rewrite (loop_step_guarded _ _ Hg).
      destruct (loop_body_guarded _ _ Hg) as (ep & Hnth & Hbody).
      destruct (IH (loop_body gc s)) as (l & Hp & Hc & Hi).
      rewrite Hbody in Hp, Hc, Hi. rewrite Hbody.
      cbn [b_packets b_cycles b_ep_index] in Hp, Hc, Hi.
      destruct (next_cycles_far (b_cycles s) ep
                  (Hfar ep (nth_error_In _ _ Hnth))) as (_ & Hn).
      exists (ep :: l). rewrite Hp, Hc, Hi, Hn, <- app_assoc.
      cbn [total_cycles fold_right List.length]. fold (total_cycles l).
      repeat split; lia.
    + rewrite (loop_step_stopped _ _ Hg), iter_stopped by assumption.
      exists []. cbn. rewrite app_nil_r. repeat split; lia.
Qed.

Lemma iter_unclamped_range (gc : list ExecutePacket) :
  (forall ep, In ep gc -> far_branches ep) ->
  (forall ep, In ep gc -> 0 <= cycles ep <= int_max) ->
  forall (n : nat) (s : BuildState),
  in_int_range (b_cycles s) ->
  in_int_range (b_cycles (Nat.iter n (loop_step gc) s)).
Proof.
  intros Hfar Hcost n s Hs. induction n as [|n IH]; [exact Hs|].
  rewrite Nat.iter_succ.
  set (x := Nat.iter n (loop_step gc) s) in *.
  destruct (loop_guard gc x) eqn:Hg.
  - rewrite (loop_step_guarded _ _ Hg).
    destruct (loop_body_guarded _ _ Hg) as (ep & Hnth & ->).
    apply loop_guard_inv in Hg as [_ Hpos].
    pose proof (nth_error_In _ _ Hnth) as Hin.
    destruct (next_cycles_far (b_cycles x) ep (Hfar ep Hin)) as (_ & Hn).
    cbn [b_cycles]. rewrite Hn.
    specialize (Hcost ep Hin). unfold in_int_range, int_min, int_max in *. lia.
  - now rewrite (loop_step_stopped _ _ Hg).
Qed.

(** When no branch of the stream has a delay below 1000, every packet cost
    is a non-negative [int] and the budget is an [int], nothing clamps and
    nothing overflows: every value the loop gives to [cycles] is within the
    range of [int] (so the exact subtraction of the embedding is the
    source's), the budget left is the budget minus the cost of the block,
    and a block that stops before the end of the stream has used up its
    budget. *)
Theorem build_unclamped_exact (sim : VLIWSimulator) (start_ep budget : Z) :
  (forall ep, In ep (guest_code sim) -> far_branches ep) ->
  (forall ep, In ep (guest_code sim) -> 0 <= cycles ep <= int_max) ->
  in_int_range budget ->
  let tb := fst (translateWithConstraint start_ep budget sim) in
  (forall n, in_int_range
               (b_cycles (while_loop n (guest_code sim)
                            (build_init sim start_ep budget)))) /\
  b_cycles (build_loop sim start_ep budget) = budget - total_cycles (packets tb) /\
  (budget <= total_cycles (packets tb) \/
   Z.of_nat (List.length (guest_code sim))
     <= start_ep + Z.of_nat (List.length (packets tb)) \/
   start_ep < 0).
Proof.
  intros Hfar Hcost Hb tb. split.
  { intro n. rewrite while_loop_iter.
    now apply iter_unclamped_range. }
  destruct (build_stops_reason_aux sim start_ep budget) as [_ Hstop].
  subst tb. cbn [translateWithConstraint fst packets].
  unfold build_loop in *. rewrite while_loop_iter in *.
  destruct (iter_unclamped (guest_code sim) Hfar (List.length (guest_code sim))
              (build_init sim start_ep budget)) as (l & Hp & Hc & Hi).
  cbn [build_init b_packets b_cycles b_ep_index app] in Hp, Hc, Hi.
  rewrite Hp, Hc in *. rewrite Hi in Hstop. split; [reflexivity|]. lia.
Qed.

Lemma build_unclamped_exact_witness :
  let sim := with_code [nop_packet 1 1; nop_packet 2 1; nop_packet 3 1] in
  let tb := fst (translateWithConstraint 0 2 sim) in
  b_cycles (build_loop sim 0 2) = 2 - total_cycles (packets tb).
Proof.
  intros sim tb.
  assert (Hfar : forall ep, In ep (guest_code sim) -> far_branches ep).
  { intros ep Hin insn Hi Hb. vm_compute in Hin.
    repeat (destruct Hin as [<-|Hin];
            [vm_compute in Hi; destruct Hi as [<-|[]]; discriminate Hb|]).
    contradiction. }
  assert (Hcost : forall ep, In ep (guest_code sim) -> 0 <= cycles ep <= int_max).
  { intros ep Hin. vm_compute in Hin.
    repeat (destruct Hin as [<-|Hin];
            [vm_compute; split; discriminate|]).
    contradiction. }
  assert (Hb : in_int_range 2) by (vm_compute; split; discriminate).
  destruct (build_unclamped_exact sim 0 2 Hfar Hcost Hb) as (_ & H & _).
  exact H.
Defined.

(** * The sentinel 1000 within a build and across builds *)

Lemma in_firstn_skipn {A : Type} (x : A) (n m : nat) (l : list A) :
  In x (firstn n (skipn m l)) -> In x l.
Proof.
  intro H.
  rewrite <- (firstn_skipn m l). apply in_or_app. right.
  rewrite <- (firstn_skipn n (skipn m l)). apply in_or_app. now left.
Qed.

Lemma branch_contexts_strip (l : list ExecutePacket) :
  flat_map branch_contexts (map strip_branches l) = [].
Proof.
  induction l as [|ep l IH]; [reflexivity|].
  cbn [map flat_map]. rewrite IH, app_nil_r.
  unfold branch_contexts. cbn [strip_branches instructions].
  rewrite filter_none; [reflexivity|].
  intros x Hx. apply in_map_iff in Hx as (i & <- & _).
  destruct (InsnType_eqb (insn_type (unbranch i)) BRANCH) eqn:E; [|reflexivity].
  apply InsnType_eqb_eq in E. now destruct (unbranch_not_branch i).
Qed.

Lemma branch_contexts_far (l : list ExecutePacket) :
  (forall ep, In ep l -> far_branches ep) ->
  forall ctx, In ctx (flat_map branch_contexts l) ->
              unconstrained <= remaining_delay ctx.
Proof.
  intros Hfar ctx Hin. apply in_flat_map in Hin as (ep & Hep & Hctx).
  unfold branch_contexts in Hctx.
  apply in_map_iff in Hctx as (insn & <- & Hi).
  apply filter_In in Hi as [Hi Hb]. apply InsnType_eqb_eq in Hb.
  cbn. exact (Hfar ep Hep insn Hi Hb).
Qed.

(** C10, as the code has it.  The value returned by the budget query on an
    empty tracker, the driver's first budget and the sentinel of the
    per-packet scan are all 1000.  Within a build a packet whose branches
    all have delay 1000 or more scans like a packet without a branch and
    leaves the budget unclamped, and a build over a stream of such packets
    yields the block that the build over the same stream with the branches
    removed yields.  Across builds such a branch is not like no branch: it
    is recorded in the tracker where the branch-free stream records
    nothing, and the query that follows returns at least 1000, namely the
    smallest recorded delay, not necessarily 1000. *)
Theorem unconstrained_budget (sim : VLIWSimulator) (start_ep budget : Z) :
  initial_cycles = 1000 /\
  (saved_contexts sim = [] -> getCyclesFromPrecedingTB sim = (1000, sim)) /\
  (forall ep, (forall insn, In insn (instructions ep) -> insn_type insn <> BRANCH) ->
              min_current_branch_delay ep = 1000) /\
  ((forall ep, In ep (guest_code sim) -> far_branches ep) ->
   (forall ep c, In ep (guest_code sim) ->
      min_current_branch_delay ep = 1000 /\ next_cycles c ep = c - cycles ep) /\
   let stripped := set_guest_code (map strip_branches (guest_code sim)) sim in
   let tb := fst (translateWithConstraint start_ep budget sim) in
   let tb' := fst (translateWithConstraint start_ep budget stripped) in
   let after := snd (translateWithConstraint start_ep budget sim) in
   let after' := snd (translateWithConstraint start_ep budget stripped) in
   packets tb' = map strip_branches (packets tb) /\
   end_ep_index tb' = end_ep_index tb /\
   saved_contexts after' = saved_contexts sim /\
   saved_contexts after
     = saved_contexts sim ++ flat_map branch_contexts (packets tb) /\
   (forall ctx, In ctx (flat_map branch_contexts (packets tb)) ->
                1000 <= remaining_delay ctx) /\
   (saved_contexts sim = [] ->
    1000 <= fst (getCyclesFromPrecedingTB after) /\
    (fst (getCyclesFromPrecedingTB after) = 1000 \/
     exists ctx, In ctx (flat_map branch_contexts (packets tb)) /\
                 remaining_delay ctx = fst (getCyclesFromPrecedingTB after)) /\
    fst (getCyclesFromPrecedingTB after') = 1000)).
Proof.
  split; [reflexivity|]. split.
  { intro H. unfold getCyclesFromPrecedingTB. now rewrite H. }
  split.
  { intros ep H. apply (proj1 (next_cycles_far 0 ep
      (fun insn Hin Hb => False_ind _ (H insn Hin Hb)))). }
  intro Hfar. split.
  { intros ep c Hin. now apply next_cycles_far, Hfar. }
  intros stripped tb tb' after after'.
  assert (Hlock : packets tb' = map strip_branches (packets tb) /\
                  end_ep_index tb' = end_ep_index tb).
  { subst tb tb' stripped. cbn. unfold build_loop. cbn [guest_code set_guest_code].
    rewrite !while_loop_iter, length_map.
    destruct (lockstep_iter (guest_code sim) (List.length (guest_code sim))
                (build_init sim start_ep budget)
                (build_init (set_guest_code (map strip_branches (guest_code sim)) sim)
                            start_ep budget) Hfar) as (_ & Hi & Hp).
    { repeat split. }
    split; [exact Hp|now rewrite Hi]. }
  destruct Hlock as [Hp He].
  assert (Hrec : saved_contexts after
                 = saved_contexts sim ++ flat_map branch_contexts (packets tb))
    by apply build_records_branches.
  assert (Hrec' : saved_contexts after' = saved_contexts sim).
  { subst after'. rewrite build_records_branches. fold tb'.
    rewrite Hp, branch_contexts_strip. apply app_nil_r. }
  assert (Hin : forall ep, In ep (packets tb) -> In ep (guest_code sim)).
  { intros ep H. destruct (build_run sim start_ep budget) as (Hr & _).
    fold tb in Hr. rewrite Hr in H.
    now apply in_firstn_skipn in H. }
  assert (Hge : forall ctx, In ctx (flat_map branch_contexts (packets tb)) ->
                            1000 <= remaining_delay ctx).
  { apply branch_contexts_far. intros ep H. apply Hfar. now apply Hin. }
  split; [exact Hp|]. split; [exact He|]. split; [exact Hrec'|].
  split; [exact Hrec|]. split; [exact Hge|].
  intro Hempty. rewrite Hempty in Hrec, Hrec'. cbn [app] in Hrec.
  assert (Hq' : fst (getCyclesFromPrecedingTB after') = 1000).
  { unfold getCyclesFromPrecedingTB. now rewrite Hrec'. }
  unfold getCyclesFromPrecedingTB at 1 2 3. rewrite Hrec.
  destruct (flat_map branch_contexts (packets tb)) as [|c0 l] eqn:E.
  - cbn. split; [discriminate|]. split; [now left|exact Hq'].
  - cbn [fst].
    assert (Hatt : exists ctx, In ctx (c0 :: l) /\
                     remaining_delay ctx
                     = min_remaining_delay (c0 :: l) (remaining_delay c0)).
    { destruct (min_remaining_attained (c0 :: l) (remaining_delay c0))
        as [H|(x & Hx & Hx')].
      - exists c0. split; [now left|now rewrite H].
      - exists x. auto. }
    destruct Hatt as (x & Hx & Hx').
    split; [rewrite <- Hx'; now apply Hge|].
    split; [right; exists x; auto|exact Hq'].
Qed.

Lemma unconstrained_budget_witness :
  let sim := with_code [branch_packet 1 1 1000; branch_packet 2 1 2000;
                        nop_packet 3 1] in
  getCyclesFromPrecedingTB sim = (1000, sim) /\
  min_current_branch_delay (branch_packet 2 1 2000) = 1000 /\
  next_cycles 50 (branch_packet 2 1 2000) = 50 - 1 /\
  end_ep_index (fst (translateWithConstraint 0 2
                       (set_guest_code (map strip_branches (guest_code sim)) sim)))
  = end_ep_index (fst (translateWithConstraint 0 2 sim)) /\
  1000 <= fst (getCyclesFromPrecedingTB (snd (translateWithConstraint 0 2 sim))).
Proof.
  intro sim.
  destruct (unconstrained_budget sim 0 2) as (_ & Hq & _ & Hf).
  split; [apply Hq; reflexivity|].
  assert (Hfar : forall ep, In ep (guest_code sim) -> far_branches ep).
  { intros ep Hin insn Hi Hb. vm_compute in Hin.
    repeat (destruct Hin as [<-|Hin];
            [vm_compute in Hi; destruct Hi as [<-|[]];
             first [discriminate Hb | vm_compute; discriminate]|]).
    contradiction. }
  destruct (Hf Hfar) as (Hscan & _ & He & _ & _ & _ & Hnext).
  destruct (Hscan (branch_packet 2 1 2000) 50) as (Hm & Hn).
  { right. left. reflexivity. }
  destruct (Hnext eq_refl) as (Hge & _).
  repeat split; assumption.
Defined.

(** C10 as stated fails across builds.  The first packet holds a branch
    with delay 2000 and the first build has budget 1: the block is that
    packet, with or without the branch.  The query that follows returns
    2000 with the branch and 1000 without it, and the second build, over
    three packets of 600 cycles each, takes all three with the branch and
    only two without it. *)
Lemma unconstrained_budget_counterexample :
  let sim := with_code [branch_packet 1 1 2000; nop_packet 2 600;
                        nop_packet 3 600; nop_packet 4 600] in
  let stripped := set_guest_code (map strip_branches (guest_code sim)) sim in
  delay_slots (createInstruction BRANCH "B" ".S2" 2000 "LOOP" 1 "" false) >= 1000 /\
  map ep_num (packets (fst (translateWithConstraint 0 1 sim))) = [1] /\
  map ep_num (packets (fst (translateWithConstraint 0 1 stripped))) = [1] /\
  fst (getCyclesFromPrecedingTB (build_and_push 0 1 sim)) = 2000 /\
  fst (getCyclesFromPrecedingTB (build_and_push 0 1 stripped)) = 1000 /\
  map ep_num (packets (second_block 0 1 sim)) = [2; 3; 4] /\
  map ep_num (packets (second_block 0 1 stripped)) = [2; 3].
Proof. vm_compute. repeat split; try reflexivity; discriminate. Qed.
